(** * Data migrations of the item and actor templates

  A shallow embedding of the two [migrateData] hooks of
  [module/data/item/templates/activated-effect.mjs] and
  [module/data/actor/templates/creature.mjs], and the properties of the
  migrations: shapes of the migrated fields, frame conditions, idempotence
  and the places where a migration throws.

  The candidate source data is a JavaScript object built from stored
  document data.  Objects are finite maps from property names to values,
  a migration is a function from the source object to the mutated source
  object, and a thrown [TypeError] is [None]. *)

From Stdlib Require Import ZArith Ascii String DecimalString DecimalZ.
From stdpp Require Import gmap strings list fin_maps option.

#[local] Set Warnings "-register-all".
#[local] Open Scope string_scope.
#[local] Open Scope nat_scope.

(** ** Strings

  A string is a sequence of code units; the model keeps the code units
  below 256.  The functions below are the [String.prototype] methods the
  migrations call. *)

Module JSString.

Definition code (c : ascii) : nat := nat_of_ascii c.

(** White space and line terminators ([\s], and what [trim] strips):
    TAB, LF, VT, FF, CR, SP and NBSP. *)
Definition is_white (c : ascii) : bool :=
  ((9 <=? code c) && (code c <=? 13)) || (code c =? 32) || (code c =? 160).

(** The character class [[A-z]]: every code unit from [A] (65) to [z]
    (122), the six punctuation marks between [Z] and [a] included. *)
Definition is_Az (c : ascii) : bool := (65 <=? code c) && (code c <=? 122).

(** The character class [[0-9]]. *)
Definition is_digit (c : ascii) : bool := (48 <=? code c) && (code c <=? 57).

(** [s.split(sep)] for a separator of one character: the first piece and
    the list of the following ones (the result is never empty). *)
Fixpoint split (sep : ascii) (s : string) : string * list string :=
  match s with
  | EmptyString => (EmptyString, [])
  | String c s' =>
      let '(t, ts) := split sep s' in
      if Ascii.eqb c sep then (EmptyString, t :: ts) else (String c t, ts)
  end.

Fixpoint trimStart (s : string) : string :=
  match s with
  | EmptyString => EmptyString
  | String c s' => if is_white c then trimStart s' else s
  end.

Fixpoint trimEnd (s : string) : string :=
  match s with
  | EmptyString => EmptyString
  | String c s' =>
      match trimEnd s' with
      | EmptyString => if is_white c then EmptyString else String c EmptyString
      | t => String c t
      end
  end.

Definition trim (s : string) : string := trimEnd (trimStart s).

Definition lower (c : ascii) : ascii :=
  let n := code c in
  if ((65 <=? n) && (n <=? 90))
     || ((192 <=? n) && (n <=? 222) && negb (n =? 215))
  then ascii_of_nat (n + 32) else c.

Fixpoint toLowerCase (s : string) : string :=
  match s with
  | EmptyString => EmptyString
  | String c s' => String (lower c) (toLowerCase s')
  end.

(** The longest prefix of characters satisfying [p], and what follows. *)
Fixpoint span (p : ascii -> bool) (s : string) : string * string :=
  match s with
  | EmptyString => (EmptyString, EmptyString)
  | String c s' =>
      if p c then let '(a, b) := span p s' in (String c a, b)
      else (EmptyString, s)
  end.

(** A match of [/([A-z]+)\s?([0-9]+)\s?([A-z]+)?/] that starts at the
    head of [s]: capture groups 1 and 2.  Group 1 is the whole run of
    [[A-z]] (a shorter run is followed by a letter, which is neither
    white space nor a digit); [\s?] takes one white-space character when
    there is one (a digit cannot stand in its place); group 2 is the
    whole run of digits, since all that follows it is optional. *)
Definition match_here (s : string) : option (string * string) :=
  let '(name, r1) := span is_Az s in
  match name with
  | EmptyString => None
  | _ =>
      let r2 := match r1 with
                | String c r => if is_white c then r else r1
                | EmptyString => r1
                end in
      let '(digits, _) := span is_digit r2 in
      match digits with
      | EmptyString => None
      | _ => Some (name, digits)
      end
  end.

(** [s.match(pattern)]: the leftmost match, [None] for [null]. *)
Fixpoint match_pattern (s : string) : option (string * string) :=
  match match_here s with
  | Some m => Some m
  | None =>
      match s with
      | EmptyString => None
      | String _ s' => match_pattern s'
      end
  end.

(** A string is truthy when it is not empty. *)
Definition truthy (s : string) : bool :=
  match s with EmptyString => false | _ => true end.

(** Every character of the string satisfies [p]. *)
Definition all (p : ascii -> bool) (s : string) : Prop :=
  forallb p (list_ascii_of_string s) = true.

(** The string does not start with a character satisfying [p]. *)
Definition stops (p : ascii -> bool) (s : string) : Prop :=
  match s with
  | EmptyString => True
  | String c _ => p c = false
  end.

(** What the pattern asks of a match at the head of [s] with the groups
    [name] and [digits]: a run of [[A-z]], at most one white-space
    character, a run of digits that is not followed by a digit. *)
Definition pattern_at_head (s name digits : string) : Prop :=
  exists space after : string,
    s = name ++ space ++ digits ++ after
    /\ name <> EmptyString /\ all is_Az name
    /\ (space = EmptyString
        \/ exists c, space = String c EmptyString /\ is_white c = true)
    /\ digits <> EmptyString /\ all is_digit digits
    /\ stops is_digit after.

(** The string has no occurrence of [c]. *)
Definition free_of (c : ascii) (s : string) : Prop :=
  forall a b, s <> a ++ String c b.

End JSString.

(** ** Numbers and the host

  Numbers are IEEE doubles and their conversions belong to the language
  and to the host application, not to this package: they are the fields
  of [Engine].  [CONFIG.DND5E.senses] is the package's table of sense
  types; the migration only asks whether a name is one of its keys. *)

Class Engine := {
  number : Type;
  (** [n === 0]: true of both zeros, false of [NaN]. *)
  num_is_zero : number -> bool;
  (** [n !== n]. *)
  num_is_nan : number -> bool;
  (** [Number(s)] and [+s] on a string. *)
  StringToNumber : string -> number;
  (** [n.toString()]. *)
  Number_toString : number -> string;
  (** The host's [Number.prototype.toNearest] at the interval [0.5]. *)
  toNearest_half : number -> number;
}.

(** Two facts of the language about these conversions: [toString] gives
    ["0"] for the two zeros only, and no numeric string contains a
    slash. *)
Definition toString_zero {E : Engine} : Prop :=
  forall n : number, Number_toString n = "0" -> num_is_zero n = true.

Definition numeric_no_slash {E : Engine} : Prop :=
  forall a b : string, num_is_nan (StringToNumber (a ++ String "/" b)) = true.

Class Config := {
  CONFIG_DND5E_senses : gmap string string;
}.

(** ** Values *)

Section values.
Context {E : Engine}.

Inductive value : Type :=
| VUndefined
| VNull
| VBool (b : bool)
| VNum (n : number)
| VStr (s : string)
| VObj (o : gmap string value).

(** An array is an object too ([typeof] gives ["object"] for both), with
    its indices and [length] as keys. *)

(** [source.k] on the source object. *)
Definition read (source : gmap string value) (k : string) : value :=
  default VUndefined (source !! k).

(** [k in source]. *)
Definition has (k : string) (source : gmap string value) : bool :=
  bool_decide (is_Some (source !! k)).

(** [v.k]: a [TypeError] on [undefined] and [null]; on a primitive the
    property is looked up on its wrapper, which has none of the names the
    migrations read. *)
Definition getField (v : value) (k : string) : option value :=
  match v with
  | VUndefined | VNull => None
  | VObj o => Some (default VUndefined (o !! k))
  | _ => Some VUndefined
  end.

(** [v?.k]. *)
Definition getFieldOpt (v : value) (k : string) : value :=
  match v with
  | VObj o => default VUndefined (o !! k)
  | _ => VUndefined
  end.

(** [v.k = x] in strict mode (the files are modules): a [TypeError]
    unless [v] is an object. *)
Definition setField (v : value) (k : string) (x : value) : option value :=
  match v with
  | VObj o => Some (VObj (<[k := x]> o))
  | _ => None
  end.

(** [source.k1.k2 = x]. *)
Definition assign2 (source : gmap string value) (k1 k2 : string) (x : value)
  : option (gmap string value) :=
  v ← setField (read source k1) k2 x;
  Some (<[k1 := v]> source).

(** [source.k1.k2.k3 = x]. *)
Definition assign3 (source : gmap string value) (k1 k2 k3 : string) (x : value)
  : option (gmap string value) :=
  inner ← getField (read source k1) k2;
  inner' ← setField inner k3 x;
  assign2 source k1 k2 inner'.

(** The host's [Number.isNumeric], on the arguments the migrations give
    it: a string, or [undefined] ([None]) for a piece that [split] did
    not produce.  It rejects [null] and the empty string, and otherwise
    tests [+n === +n]. *)
Definition Number_isNumeric (n : option string) : bool :=
  match n with
  | None => false
  | Some s => if decide (s = "") then false else negb (num_is_nan (StringToNumber s))
  end.

(** [[0, "0", null].includes(v)]. *)
Definition includes_zero_null (v : value) : bool :=
  match v with
  | VNum n => num_is_zero n
  | VStr s => bool_decide (s = "0")
  | VNull => true
  | _ => false
  end.

(** The primitives that a document holds. *)
Definition primitive (v : value) : bool :=
  match v with VBool _ | VNum _ | VStr _ => true | _ => false end.

End values.

Abbreviation obj := (gmap string value).

(** ** [ActivatedEffectTemplate]: items that can be used as an action *)

Module ActivatedEffectTemplate.
Section migrations.
Context {E : Engine}.

(** The two branches that [migrateFormulaFields] applies to [uses.max] and
    to [duration.value]: [field] is [source.k1?.k2]. *)
Definition migrateFormulaField (k1 k2 : string) (source : obj) : option obj :=
  let field := getFieldOpt (read source k1) k2 in
  if includes_zero_null field then assign2 source k1 k2 (VStr "")
  else match field with
       | VNum n => assign2 source k1 k2 (VStr (Number_toString n))
       | _ => Some source
       end.

(** Ensure a 0 or null in max uses and durations are converted to an empty
    string rather than "0".  Convert numbers into strings. *)
Definition migrateFormulaFields (source : obj) : option obj :=
  source ← migrateFormulaField "uses" "max" source;
  migrateFormulaField "duration" "value" source.

(** Fix imported range data that uses the format "100/400" in the range
    field, rather than splitting it between [range.value] and
    [range.long]. *)
Definition migrateRanges (source : obj) : option obj :=
  if negb (has "range" source) then Some source else
  units ← getField (read source "range") "units";
  source ← match units with
           | VNull => assign2 source "range" "units" (VStr "")
           | _ => Some source
           end;
  long ← getField (read source "range") "long";
  source ← match long with
           | VStr l =>
               if decide (l = "") then assign2 source "range" "long" VNull
               else if Number_isNumeric (Some l)
                    then assign2 source "range" "long" (VNum (StringToNumber l))
                    else Some source
           | _ => Some source
           end;
  value ← getField (read source "range") "value";
  match value with
  | VStr v =>
      if decide (v = "") then assign2 source "range" "value" VNull
      else
        let '(value, rest) := JSString.split "/" v in
        let long := head rest in
        source ← (if Number_isNumeric (Some value)
                  then assign2 source "range" "value" (VNum (StringToNumber value))
                  else Some source);
        match long with
        | Some l =>
            if Number_isNumeric long
            then assign2 source "range" "long" (VNum (StringToNumber l))
            else Some source
        | None => Some source
        end
  | _ => Some source
  end.

(** Ensure blank strings in targets are converted to null. *)
Definition migrateTargets (source : obj) : option obj :=
  source ← match getFieldOpt (read source "target") "value" with
           | VStr v => if decide (v = "") then assign2 source "target" "value" VNull
                       else Some source
           | _ => Some source
           end;
  source ← match getFieldOpt (read source "target") "units" with
           | VNull => assign2 source "target" "units" (VStr "")
           | _ => Some source
           end;
  match getFieldOpt (read source "target") "type" with
  | VNull => assign2 source "target" "type" (VStr "")
  | _ => Some source
  end.

(** Ensure a blank string in [uses.value] is converted to null. *)
Definition migrateUses (source : obj) : option obj :=
  if negb (has "uses" source) then Some source else
  value ← getField (read source "uses") "value";
  source ← match value with
           | VStr v =>
               if decide (v = "") then assign2 source "uses" "value" VNull
               else if Number_isNumeric (Some v)
                    then assign2 source "uses" "value" (VNum (StringToNumber v))
                    else Some source
           | _ => Some source
           end;
  recovery ← getField (read source "uses") "recovery";
  match recovery with
  | VUndefined => assign2 source "uses" "recovery" (VStr "")
  | _ => Some source
  end.

(** Migrate the consume field. *)
Definition migrateConsume (source : obj) : option obj :=
  if negb (has "consume" source) then Some source else
  type ← getField (read source "consume") "type";
  source ← match type with
           | VNull => assign2 source "consume" "type" (VStr "")
           | _ => Some source
           end;
  amount ← getField (read source "consume") "amount";
  match amount with
  | VStr a =>
      if decide (a = "") then assign2 source "consume" "amount" VNull
      else if Number_isNumeric (Some a)
           then assign2 source "consume" "amount" (VNum (StringToNumber a))
           else Some source
  | _ => Some source
  end.

Definition migrateData (source : obj) : option obj :=
  source ← migrateFormulaFields source;
  source ← migrateRanges source;
  source ← migrateTargets source;
  source ← migrateUses source;
  migrateConsume source.

(** *** The migrations on the object they rewrite

    Each migration reads and writes one property of the source (two for
    [migrateFormulaFields]); when that property holds an object, these
    are the same statements on that object alone. *)

(** A function on objects as a function on values: other values are left
    as they are. *)
Definition lift (g : obj -> obj) (v : value) : value :=
  match v with
  | VObj o => VObj (g o)
  | _ => v
  end.

(** One guarded assignment [if ( test(o.k) ) o.k = x]: [h] gives the new
    value, or [None] when the property is left alone. *)
Definition rewrite_field (h : value -> option value) (k : string) (o : obj) : obj :=
  match h (read o k) with
  | Some x => <[k := x]> o
  | None => o
  end.

Definition formula_string (v : value) : option value :=
  if includes_zero_null v then Some (VStr "")
  else match v with
       | VNum n => Some (VStr (Number_toString n))
       | _ => None
       end.

Definition numeric_string (v : value) : option value :=
  match v with
  | VStr l =>
      if decide (l = "") then Some VNull
      else if Number_isNumeric (Some l) then Some (VNum (StringToNumber l))
           else None
  | _ => None
  end.

Definition null_to_blank (v : value) : option value :=
  match v with
  | VNull => Some (VStr "")
  | _ => None
  end.

Definition blank_to_null (v : value) : option value :=
  match v with
  | VStr l => if decide (l = "") then Some VNull else None
  | _ => None
  end.

Definition undefined_to_blank (v : value) : option value :=
  match v with
  | VUndefined => Some (VStr "")
  | _ => None
  end.

(** The last part of [migrateRanges], which splits [range.value]. *)
Definition range_value_obj (o : obj) : obj :=
  match read o "value" with
  | VStr v =>
      if decide (v = "") then <["value" := VNull]> o
      else
        let '(value, rest) := JSString.split "/" v in
        let o := if Number_isNumeric (Some value)
                 then <["value" := VNum (StringToNumber value)]> o else o in
        match head rest with
        | Some l =>
            if Number_isNumeric (Some l)
            then <["long" := VNum (StringToNumber l)]> o else o
        | None => o
        end
  | _ => o
  end.

Definition range_obj (o : obj) : obj :=
  range_value_obj
    (rewrite_field numeric_string "long" (rewrite_field null_to_blank "units" o)).

Definition target_obj (o : obj) : obj :=
  rewrite_field null_to_blank "type"
    (rewrite_field null_to_blank "units" (rewrite_field blank_to_null "value" o)).

Definition uses_obj (o : obj) : obj :=
  rewrite_field undefined_to_blank "recovery" (rewrite_field numeric_string "value" o).

Definition consume_obj (o : obj) : obj :=
  rewrite_field numeric_string "amount" (rewrite_field null_to_blank "type" o).

(** What [migrateData] does to the value of the property [k] of the
    source. *)
Definition field_migration (k : string) : value -> value :=
  if decide (k = "uses") then lift (uses_obj ∘ rewrite_field formula_string "max")
  else if decide (k = "duration") then lift (rewrite_field formula_string "value")
  else if decide (k = "range") then lift range_obj
  else if decide (k = "target") then lift target_obj
  else if decide (k = "consume") then lift consume_obj
  else id.

Definition migrated (source : obj) : obj :=
  map_imap (fun k v => Some (field_migration k v)) source.

(** [h] never rewrites what it has written. *)
Definition settles (h : value -> option value) : Prop :=
  forall v x, h v = Some x -> h x = None.

(** Where the migrations throw: [range] and [consume] are dereferenced
    when the key is present, so they must not hold [undefined] or [null];
    [uses] is written to as well, so it must hold an object. *)
Definition derefs (v : option value) : bool :=
  match v with
  | Some VUndefined | Some VNull => false
  | _ => true
  end.

Definition writable (v : option value) : bool :=
  match v with
  | None | Some (VObj _) => true
  | _ => false
  end.

Definition well_shaped (source : obj) : bool :=
  derefs (source !! "range") && writable (source !! "uses")
  && derefs (source !! "consume").

End migrations.
(** *** The steps of [migrateData] *)

Section steps.
Context {E : Engine}.



(** Two migrations that can be run in either order. *)
Definition commute (f g : obj -> option obj) : Prop :=
  forall s, f s ≫= g = g s ≫= f.


End steps.
End ActivatedEffectTemplate.

(** ** [CreatureTemplate]: actors that are creatures *)

Module CreatureTemplate.
Section migrations.
Context {E : Engine} {C : Config}.

(** [type in CONFIG.DND5E.senses]. *)
Definition in_senses (type : string) : bool :=
  bool_decide (is_Some (CONFIG_DND5E_senses !! type)).

(** One turn of the loop over the comma-separated terms; the loop carries
    the source object and [wasMatched]. *)
Definition senses_term (st : obj * bool) (s : string) : option (obj * bool) :=
  let s := JSString.trim s in
  match JSString.match_pattern s with
  | None => Some st
  | Some (m1, m2) =>
      let type := JSString.toLowerCase m1 in
      if in_senses type then
        source ← assign3 st.1 "attributes" "senses" type
                   (VNum (toNearest_half (StringToNumber m2)));
        Some (source, true)
      else Some st
  end.

Fixpoint senses_loop (st : obj * bool) (terms : list string) : option (obj * bool) :=
  match terms with
  | [] => Some st
  | s :: terms => st ← senses_term st s; senses_loop st terms
  end.

(** [v] is [undefined] or [null], the test of [x ??= y]. *)
Definition nullish (v : value) : bool :=
  match v with VUndefined | VNull => true | _ => false end.

(** Migrate the actor [traits.senses] string to the [attributes.senses]
    object. *)
Definition migrateSensesData (source : obj) : option obj :=
  match getFieldOpt (read source "traits") "senses" with
  | VStr original =>
      let source := if nullish (read source "attributes")
                    then <["attributes" := VObj ∅]> source else source in
      senses ← getField (read source "attributes") "senses";
      source ← (if nullish senses
                then assign2 source "attributes" "senses" (VObj ∅)
                else Some source);
      let '(first, rest) := JSString.split "," original in
      '(source, wasMatched) ← senses_loop (source, false) (first :: rest);
      if negb wasMatched && JSString.truthy original
      then assign3 source "attributes" "senses" "special" (VStr original)
      else Some source
  | _ => Some source
  end.

(** [migrateData] runs the migration of the parent template first; that
    one is [super_migrateData]. *)
Definition migrateData (super_migrateData : obj -> option obj) (source : obj)
  : option obj :=
  source ← super_migrateData source;
  migrateSensesData source.

(** *** The migration on the senses object

    The loop assigns to [source.attributes.senses] only, and what it
    assigns depends on the legacy string alone. *)

(** The assignment that one term makes, if any: the property and its new
    value. *)
Definition term_write (s : string) : option (string * value) :=
  match JSString.match_pattern (JSString.trim s) with
  | None => None
  | Some (m1, m2) =>
      let type := JSString.toLowerCase m1 in
      if in_senses type
      then Some (type, VNum (toNearest_half (StringToNumber m2)))
      else None
  end.

Definition terms_of (original : string) : list string :=
  let '(first, rest) := JSString.split "," original in first :: rest.

(** All the assignments of the migration, in order: those of the loop,
    then the one to [special] when nothing was matched and the string is
    not empty. *)
Definition senses_writes (original : string) : list (string * value) :=
  let ws := omap term_write (terms_of original) in
  match ws with
  | [] => if JSString.truthy original then [("special", VStr original)] else []
  | _ => ws
  end.

Definition apply_writes (ws : list (string * value)) (o : obj) : obj :=
  foldl (fun o w => <[w.1 := w.2]> o) o ws.

(** The object that [x ??= {}] leaves in [x]. *)
Definition or_empty (v : value) : option obj :=
  match v with
  | VUndefined | VNull => Some ∅
  | VObj o => Some o
  | _ => None
  end.

(** [source.attributes?.senses?.[k]] *)
Definition sense (source : obj) (k : string) : value :=
  getFieldOpt (getFieldOpt (read source "attributes") "senses") k.

(** [attributes] and [attributes.senses] are objects or can be created. *)
Definition senses_shape (source : obj) : option (obj * obj) :=
  attributes ← or_empty (read source "attributes");
  senses ← or_empty (read attributes "senses");
  Some (attributes, senses).

End migrations.
(** *** The initial values of the schema

    [CONFIG.DND5E.skills] and [CONFIG.DND5E.spellLevels] are tables of the
    system's configuration.  The first maps a skill to an object with its
    [ability]; of the second only the keys matter, in the order in which
    [Object.keys] lists them. *)

Section initial_values.
Context {E : Engine}.
Variable CONFIG_DND5E_skills : obj.
Variable CONFIG_DND5E_spellLevels : list (string * string).

(** The truth value of [v] in a condition. *)
Definition ToBoolean (v : value) : bool :=
  match v with
  | VUndefined | VNull => false
  | VBool b => b
  | VNum n => negb (num_is_zero n || num_is_nan n)
  | VStr s => JSString.truthy s
  | VObj _ => true
  end.

(** Populate the proper initial abilities for the skills: [initial] is
    the object that the call returns, after the assignment. *)
Definition _initialSkillValue (key : string) (initial : value) : option value :=
  if ToBoolean (getFieldOpt (read CONFIG_DND5E_skills key) "ability")
  then
    ability ← getField (read CONFIG_DND5E_skills key) "ability";
    setField initial "ability" ability
  else Some initial.

(** Helper for building the default list of spell levels. *)
Definition _spellLevels : list string :=
  let levels :=
    map (fun l => "spell" ++ l)
        (filter (fun a => a <> "0") (map fst CONFIG_DND5E_spellLevels)) in
  (levels ++ ["pact"])%list.

End initial_values.

End CreatureTemplate.

(** ** An engine to compute with

    The integers among the numbers: [Number] reads a trimmed run of decimal
    digits (the empty string is 0), anything else is [NaN]; an integer is a
    multiple of 0.5 already. *)

Module IntEngine.

Inductive num := NaN | Int (z : Z).

Definition all_digits (s : string) : bool :=
  forallb JSString.is_digit (list_ascii_of_string s).

Definition parse (s : string) : num :=
  let t := JSString.trim s in
  if all_digits t
  then match NilZero.uint_of_string t with
       | Some d => Int (Z.of_uint d)
       | None => Int 0
       end
  else NaN.

Definition print (n : num) : string :=
  match n with
  | NaN => "NaN"
  | Int z => NilZero.string_of_int (Z.to_int z)
  end.

#[export] Instance engine : Engine := {|
  number := num;
  num_is_zero n := match n with Int 0 => true | _ => false end;
  num_is_nan n := match n with NaN => true | _ => false end;
  StringToNumber := parse;
  Number_toString := print;
  toNearest_half n := n;
|}.

(** The sense types of the system's configuration. *)
#[export] Instance config : Config := {|
  CONFIG_DND5E_senses :=
    list_to_map [("blindsight", "DND5E.SenseBlindsight");
                 ("darkvision", "DND5E.SenseDarkvision");
                 ("tremorsense", "DND5E.SenseTremorsense");
                 ("truesight", "DND5E.SenseTruesight")];
|}.

End IntEngine.

(** ** Sample documents *)

Module Examples.
Import IntEngine.

Definition object (l : list (string * value)) : value := VObj (list_to_map l).

Definition item : obj :=
  list_to_map
    [("activation", object [("type", VStr "action"); ("cost", VNum (Int 1))]);
     ("duration", object [("value", VNum (Int 10)); ("units", VStr "minute")]);
     ("target", object [("value", VStr ""); ("units", VNull); ("type", VNull)]);
     ("range", object [("value", VStr "100/400"); ("units", VNull)]);
     ("uses", object [("value", VStr "3"); ("max", VNum (Int 0)); ("per", VNull)]);
     ("consume", object [("type", VNull); ("amount", VStr "")])].

Definition item_migrated : obj :=
  list_to_map
    [("activation", object [("type", VStr "action"); ("cost", VNum (Int 1))]);
     ("duration", object [("value", VStr "10"); ("units", VStr "minute")]);
     ("target", object [("value", VNull); ("units", VStr ""); ("type", VStr "")]);
     ("range", object [("value", VNum (Int 100)); ("long", VNum (Int 400));
                       ("units", VStr "")]);
     ("uses", object [("value", VNum (Int 3)); ("max", VStr ""); ("per", VNull);
                      ("recovery", VStr "")]);
     ("consume", object [("type", VStr ""); ("amount", VNull)])].

Definition creature : obj :=
  list_to_map [("traits", object [("senses", VStr "Darkvision 60 ft, Blindsight 30 ft.")])].

Definition creature_migrated : obj :=
  list_to_map
    [("traits", object [("senses", VStr "Darkvision 60 ft, Blindsight 30 ft.")]);
     ("attributes",
      object [("senses", object [("darkvision", VNum (Int 60));
                                 ("blindsight", VNum (Int 30))])])].


Definition creature_current : obj :=
  list_to_map [("attributes", object [("senses", object [("darkvision", VNum (Int 60))])])].


(** An item with formulas and strings that are not numbers. *)
Definition item_formulas : obj :=
  list_to_map
    [("duration", object [("value", VStr "@prof"); ("units", VStr "hour")]);
     ("target", object [("value", VNum (Int 2)); ("units", VStr "ft");
                        ("type", VStr "cone")]);
     ("range", object [("value", VNum (Int 30)); ("long", VStr "120");
                       ("units", VStr "ft")]);
     ("uses", object [("value", VStr "1d4"); ("max", VStr "@abilities.wis.mod");
                      ("per", VStr "lr"); ("recovery", VStr "1d6")]);
     ("consume", object [("type", VStr "ammo"); ("target", VStr "arrows");
                         ("amount", VStr "all")])].

Definition item_formulas_migrated : obj :=
  <["range" := object [("value", VNum (Int 30)); ("long", VNum (Int 120));
                       ("units", VStr "ft")]]> item_formulas.

(** An item with the [range] that [range_value] gives to [range.value]. *)
Definition item_range (range_value : string) : obj :=
  list_to_map [("range", object [("value", VStr range_value); ("long", VNum (Int 5))])].

Definition creature_blank : obj :=
  list_to_map
    [("traits", object [("senses", VStr "")]);
     ("attributes", object [("senses", object [("darkvision", VNum (Int 60))])])].

Definition creature_truesight : obj :=
  list_to_map
    [("traits", object [("senses", VStr "Darkvision 60 ft")]);
     ("attributes",
      object [("hp", VNum (Int 7));
              ("senses", object [("truesight", VNum (Int 10));
                                 ("special", VStr "smells fear")])])].

Definition creature_truesight_migrated : obj :=
  list_to_map
    [("traits", object [("senses", VStr "Darkvision 60 ft")]);
     ("attributes",
      object [("hp", VNum (Int 7));
              ("senses", object [("truesight", VNum (Int 10));
                                 ("special", VStr "smells fear");
                                 ("darkvision", VNum (Int 60))])])].

(** The keys of [CONFIG.DND5E.spellLevels], with their labels. *)
Definition spellLevels : list (string * string) :=
  [("0", "DND5E.SpellLevel0"); ("1", "DND5E.SpellLevel1"); ("2", "DND5E.SpellLevel2");
   ("3", "DND5E.SpellLevel3"); ("4", "DND5E.SpellLevel4"); ("5", "DND5E.SpellLevel5");
   ("6", "DND5E.SpellLevel6"); ("7", "DND5E.SpellLevel7"); ("8", "DND5E.SpellLevel8");
   ("9", "DND5E.SpellLevel9")].

End Examples.

(** * Properties *)

#[local] Arguments Number_isNumeric : simpl never.
#[local] Arguments includes_zero_null : simpl never.
#[local] Arguments read : simpl never.

(** ** Strings *)

Section string_examples.
Import JSString.

Example split_range : split "/" "100/400" = ("100", ["400"]).
Proof. reflexivity. Qed.

Example split_empty : split "," "" = ("", []).
Proof. reflexivity. Qed.

Example match_darkvision :
  match_pattern (trim " Darkvision 60 ft") = Some ("Darkvision", "60").
Proof. reflexivity. Qed.

Example match_nospace : match_pattern "see blindsight30ft" = Some ("blindsight", "30").
Proof. reflexivity. Qed.

Example match_leftmost : match_pattern "a b 12 c 3" = Some ("b", "12").
Proof. reflexivity. Qed.

Example match_none : match_pattern "Darkvision" = None.
Proof. reflexivity. Qed.

End string_examples.

Section strings.
Import JSString.

Lemma free_of_tail c d s : free_of c (String d s) → free_of c s.
Proof. intros H a b ->. by apply (H (String d a) b). Qed.

Lemma free_of_head c d s : free_of c (String d s) → d ≠ c.
Proof. intros H ->. by apply (H "" s). Qed.

Lemma split_free sep s : free_of sep s → split sep s = (s, []).
Proof.
  induction s as [|d s IH]; intros H; [done|]. simpl.
  rewrite IH by (by eapply free_of_tail).
  apply free_of_head in H. by destruct (Ascii.eqb_spec d sep).
Qed.

Lemma split_app_free sep a b :
  free_of sep a →
  split sep (a ++ String sep b) = (a, (split sep b).1 :: (split sep b).2).
Proof.
  induction a as [|d a IH]; intros H; simpl.
  - rewrite Ascii.eqb_refl. by destruct (split sep b).
  - rewrite IH by (by eapply free_of_tail).
    apply free_of_head in H. by destruct (Ascii.eqb_spec d sep).
Qed.

Lemma trimStart_keeps c a b :
  is_white c = false → ∃ a' b', trimStart (a ++ String c b) = a' ++ String c b'.
Proof.
  intros Hc. induction a as [|d a IH]; simpl.
  - rewrite Hc. by exists "", b.
  - destruct (is_white d); [done|]. by exists (String d a), b.
Qed.

Lemma trimEnd_keeps c a b :
  is_white c = false → ∃ b', trimEnd (a ++ String c b) = a ++ String c b'.
Proof.
  intros Hc. induction a as [|d a [b' IH]]; simpl.
  - destruct (trimEnd b) as [|e b'] eqn:Hb.
    + rewrite Hc. by exists "".
    + by exists (String e b').
  - rewrite IH. exists b'. by destruct a.
Qed.

Lemma trim_keeps c a b :
  is_white c = false → ∃ a' b', trim (a ++ String c b) = a' ++ String c b'.
Proof.
  intros Hc. unfold trim.
  destruct (trimStart_keeps c a b Hc) as (a' & b' & ->).
  destruct (trimEnd_keeps c a' b' Hc) as (b'' & ->). by exists a', b''.
Qed.

(** *** The pattern of the legacy senses *)

Lemma white_not_Az c : is_white c = true → is_Az c = false.
Proof. by destruct c as [[] [] [] [] [] [] [] []]. Qed.

Lemma white_not_digit c : is_white c = true → is_digit c = false.
Proof. by destruct c as [[] [] [] [] [] [] [] []]. Qed.

Lemma digit_not_Az c : is_digit c = true → is_Az c = false.
Proof. by destruct c as [[] [] [] [] [] [] [] []]. Qed.

Lemma digit_not_white c : is_digit c = true → is_white c = false.
Proof. by destruct c as [[] [] [] [] [] [] [] []]. Qed.

Lemma all_cons p c s : all p (String c s) ↔ p c = true ∧ all p s.
Proof. unfold all. simpl. by rewrite andb_true_iff. Qed.

Lemma span_spec p s :
  s = (span p s).1 ++ (span p s).2 ∧ all p (span p s).1 ∧ stops p (span p s).2.
Proof.
  induction s as [|c s (IH1 & IH2 & IH3)]; [done|]. simpl.
  destruct (p c) eqn:Hc; [|done]. destruct (span p s) as [a b]. simpl in *.
  split; [by rewrite IH1|]. split; [|done]. by apply all_cons.
Qed.

Lemma span_app p a b : all p a → stops p b → span p (a ++ b) = (a, b).
Proof.
  intros Ha Hb. induction a as [|c a IH]; simpl.
  - destruct b as [|c b]; [done|]. simpl in *. by rewrite Hb.
  - apply all_cons in Ha as [-> Ha]. by rewrite IH.
Qed.

Lemma stops_head p c s : p c = true → stops p (String c s) → False.
Proof. simpl. congruence. Qed.

Lemma stops_app_digits (digits after : string) :
  digits ≠ "" → all is_digit digits → stops is_Az (digits ++ after).
Proof.
  destruct digits as [|c digits]; [done|]. intros _ [Hc _]%all_cons. simpl.
  by apply digit_not_Az.
Qed.

(** [match_here] gives the groups of the match that the pattern has at
    the head of the string, and [None] when it has none. *)
Lemma match_here_Some s name digits :
  match_here s = Some (name, digits) ↔ pattern_at_head s name digits.
Proof.
  unfold match_here, pattern_at_head. split.
  - pose proof (span_spec is_Az s) as (Hs & Hname & Hstop).
    destruct (span is_Az s) as [name' r1]. simpl in *.
    destruct name' as [|c name']; [done|].
    set (r2 := match r1 with
               | EmptyString => r1
               | String c r => if is_white c then r else r1
               end).
    pose proof (span_spec is_digit r2) as (Hr2 & Hdigits & Hstop').
    destruct (span is_digit r2) as [digits' after]. simpl in *.
    destruct digits' as [|d digits']; [done|]. intros [= <- <-].
    destruct r1 as [|w r1].
    + exists "", after. subst r2. rewrite Hs, Hr2. by repeat split; try left.
    + destruct (is_white w) eqn:Hw.
      * exists (String w ""), after. subst r2. rewrite Hs, Hr2.
        repeat split; try done. right. exists w. by split.
      * exists "", after. subst r2. rewrite Hs, Hr2. by repeat split; try left.
  - intros (space & after & -> & Hname & Haz & Hspace & Hdigits & Hnum & Hstop).
    assert (stops is_Az (space ++ digits ++ after)) as Hstop_az.
    { destruct Hspace as [->|(c & -> & Hc)].
      - apply (stops_app_digits digits after Hdigits Hnum).
      - simpl. by apply white_not_Az. }
    rewrite (span_app is_Az name _ Haz Hstop_az).
    destruct name as [|c name]; [done|].
    assert (match space ++ digits ++ after with
            | EmptyString => space ++ digits ++ after
            | String c r => if is_white c then r else space ++ digits ++ after
            end = digits ++ after) as ->.
    { destruct Hspace as [->|(w & -> & Hw)]; simpl; [|by rewrite Hw].
      destruct digits as [|d digits]; [done|]. simpl.
      apply all_cons in Hnum as [Hd _]. by rewrite (digit_not_white d Hd). }
    rewrite (span_app is_digit digits after Hnum Hstop).
    by destruct digits.
Qed.

(** [match_pattern] gives the match at the first position that has one. *)
Lemma match_pattern_Some s m :
  match_pattern s = Some m ↔
  ∃ before rest : string,
    s = before ++ rest ∧ match_here rest = Some m
    ∧ ∀ b1 b2 : string, before = b1 ++ b2 → b2 ≠ "" → match_here (b2 ++ rest) = None.
Proof.
  split.
  - induction s as [|c s IH]; simpl.
    + done.
    + destruct (match_here (String c s)) as [m'|] eqn:Hhere.
      * intros [= <-]. exists "", (String c s).
        split; [done|]. split; [done|]. intros [|? ?] [|? ?]; done.
      * intros (before & rest & -> & Hrest & Hleft)%IH.
        exists (String c before), rest.
        split; [done|]. split; [done|].
        intros [|c' b1] b2 Hb Hne; simpl in Hb.
        -- change ("" +:+ b2) with b2 in Hb. by subst b2.
        -- injection Hb as -> ->. by apply (Hleft b1 b2).
  - intros (before & rest & -> & Hrest & Hleft).
    induction before as [|c before IH].
    + change ("" +:+ rest) with rest. destruct rest as [|a rest]; [done|].
      cbn [match_pattern]. by rewrite Hrest.
    + change (String c before +:+ rest) with (String c (before +:+ rest)).
      cbn [match_pattern].
      change (String c (before +:+ rest)) with (String c before +:+ rest).
      rewrite (Hleft "" (String c before)) by done.
      apply IH. intros b1 b2 -> Hne. by apply (Hleft (String c b1) b2).
Qed.

Lemma match_pattern_None s :
  match_pattern s = None ↔ ∀ before rest : string, s = before ++ rest → match_here rest = None.
Proof.
  split.
  - induction s as [|c s IH]; simpl.
    + intros _ [|? ?] [|? ?] ?; by simplify_eq.
    + destruct (match_here (String c s)) eqn:Hhere; [done|].
      intros Hs [|c' before] rest Heq.
      * change ("" +:+ rest) with rest in Heq. by subst rest.
      * injection Heq as -> ->. by apply (IH Hs before rest).
  - intros H. induction s as [|c s IH]; simpl.
    + done.
    + rewrite (H "" (String c s)) by done. apply IH.
      intros before rest ->. by apply (H (String c before) rest).
Qed.

End strings.

(** ** Reads and assignments *)

Section basics.
Import ActivatedEffectTemplate.
Context {E : Engine}.
Implicit Types (s o : obj) (k : string) (v x : value).

Lemma read_insert s k v : read (<[k := v]> s) k = v.
Proof. unfold read. by rewrite lookup_insert_eq. Qed.

Lemma read_insert_ne s k k' v : k ≠ k' → read (<[k := v]> s) k' = read s k'.
Proof. intros. unfold read. by rewrite lookup_insert_ne. Qed.

Lemma read_Some k s v : s !! k = Some v → read s k = v.
Proof. intros H. unfold read. by rewrite H. Qed.

Lemma read_None k s : s !! k = None → read s k = VUndefined.
Proof. intros H. unfold read. by rewrite H. Qed.

Lemma has_insert s k v : has k (<[k := v]> s) = true.
Proof. unfold has. rewrite lookup_insert_eq. by apply bool_decide_eq_true. Qed.

Lemma has_None k s : s !! k = None → has k s = false.
Proof. intros H. unfold has. rewrite H. apply bool_decide_eq_false. by intros [? ?]. Qed.

Lemma has_Some k s v : s !! k = Some v → has k s = true.
Proof. intros H. unfold has. rewrite H. by apply bool_decide_eq_true. Qed.

Lemma getField_insert s k1 k2 o :
  getField (read (<[k1 := VObj o]> s) k1) k2 = Some (read o k2).
Proof. by rewrite read_insert. Qed.

Lemma getFieldOpt_insert s k1 k2 o :
  getFieldOpt (read (<[k1 := VObj o]> s) k1) k2 = read o k2.
Proof. by rewrite read_insert. Qed.

Lemma assign2_insert s k1 k2 o x :
  assign2 (<[k1 := VObj o]> s) k1 k2 x = Some (<[k1 := VObj (<[k2 := x]> o)]> s).
Proof. unfold assign2. rewrite read_insert. simpl. by rewrite insert_insert_eq. Qed.

Lemma alter_lift_obj (g : obj → obj) s k o :
  s !! k = Some (VObj o) → alter (lift g) k s = <[k := VObj (g o)]> s.
Proof. intros H. by rewrite (alter_alt_Some _ _ _ _ H). Qed.

Lemma alter_lift_other (g : obj → obj) s k :
  match s !! k with Some (VObj _) => False | _ => True end →
  alter (lift g) k s = s.
Proof.
  intros H. apply alter_id. intros v Hv. rewrite Hv in H. by destruct v.
Qed.

(** A guarded assignment on the object under [k1], as the source writes it,
    is [rewrite_field] on that object. *)
Lemma guarded_insert (h : value → option value) s k1 k2 o :
  match h (read o k2) with
  | Some x => assign2 (<[k1 := VObj o]> s) k1 k2 x
  | None => Some (<[k1 := VObj o]> s)
  end = Some (<[k1 := VObj (rewrite_field h k2 o)]> s).
Proof.
  unfold rewrite_field. destruct (h (read o k2)); [apply assign2_insert|done].
Qed.

Lemma migrateFormulaField_insert k1 k2 s o :
  migrateFormulaField k1 k2 (<[k1 := VObj o]> s)
  = Some (<[k1 := VObj (rewrite_field formula_string k2 o)]> s).
Proof.
  unfold migrateFormulaField. rewrite getFieldOpt_insert.
  rewrite <- (guarded_insert formula_string). unfold formula_string.
  destruct (includes_zero_null (read o k2)); [done|]. by destruct (read o k2).
Qed.

Lemma numeric_insert s k1 k2 o :
  match read o k2 with
  | VStr l =>
      if decide (l = "") then assign2 (<[k1 := VObj o]> s) k1 k2 VNull
      else if Number_isNumeric (Some l)
           then assign2 (<[k1 := VObj o]> s) k1 k2 (VNum (StringToNumber l))
           else Some (<[k1 := VObj o]> s)
  | _ => Some (<[k1 := VObj o]> s)
  end = Some (<[k1 := VObj (rewrite_field numeric_string k2 o)]> s).
Proof.
  rewrite <- (guarded_insert numeric_string). unfold numeric_string.
  destruct (read o k2); try done. by repeat case_match.
Qed.

Lemma null_to_blank_insert s k1 k2 o :
  match read o k2 with
  | VNull => assign2 (<[k1 := VObj o]> s) k1 k2 (VStr "")
  | _ => Some (<[k1 := VObj o]> s)
  end = Some (<[k1 := VObj (rewrite_field null_to_blank k2 o)]> s).
Proof.
  rewrite <- (guarded_insert null_to_blank). by destruct (read o k2).
Qed.

Lemma migrateRanges_insert s o :
  migrateRanges (<["range" := VObj o]> s) = Some (<["range" := VObj (range_obj o)]> s).
Proof.
  unfold migrateRanges, range_obj. rewrite has_insert. simpl.
  rewrite getField_insert. simpl. rewrite null_to_blank_insert. simpl.
  rewrite getField_insert. simpl. rewrite numeric_insert. simpl.
  rewrite getField_insert. simpl.
  generalize (rewrite_field numeric_string "long" (rewrite_field null_to_blank "units" o)).
  intros o'.
  unfold range_value_obj. destruct (read o' "value"); try done.
  case_decide; [apply assign2_insert|].
  destruct (JSString.split "/" s0) as [a rest].
  destruct (Number_isNumeric (Some a)); simpl.
  - rewrite assign2_insert. simpl. destruct (head rest); [|done].
    destruct (Number_isNumeric (Some s1)); [apply assign2_insert|done].
  - destruct (head rest); [|done].
    destruct (Number_isNumeric (Some s1)); [apply assign2_insert|done].
Qed.

Lemma migrateTargets_insert s o :
  migrateTargets (<["target" := VObj o]> s) = Some (<["target" := VObj (target_obj o)]> s).
Proof.
  unfold migrateTargets, target_obj. rewrite getFieldOpt_insert.
  assert (match read o "value" with
          | VStr v => if decide (v = "")
                      then assign2 (<["target" := VObj o]> s) "target" "value" VNull
                      else Some (<["target" := VObj o]> s)
          | _ => Some (<["target" := VObj o]> s)
          end = Some (<["target" := VObj (rewrite_field blank_to_null "value" o)]> s)) as ->.
  { rewrite <- (guarded_insert blank_to_null). unfold blank_to_null.
    destruct (read o "value"); try done. by case_decide. }
  simpl. rewrite getFieldOpt_insert, null_to_blank_insert. simpl.
  rewrite getFieldOpt_insert. apply null_to_blank_insert.
Qed.

Lemma migrateUses_insert s o :
  migrateUses (<["uses" := VObj o]> s) = Some (<["uses" := VObj (uses_obj o)]> s).
Proof.
  unfold migrateUses, uses_obj. rewrite has_insert. simpl.
  rewrite getField_insert. simpl. rewrite numeric_insert. simpl.
  rewrite getField_insert. simpl.
  rewrite <- (guarded_insert undefined_to_blank).
  by destruct (read (rewrite_field numeric_string "value" o) "recovery").
Qed.

Lemma migrateConsume_insert s o :
  migrateConsume (<["consume" := VObj o]> s)
  = Some (<["consume" := VObj (consume_obj o)]> s).
Proof.
  unfold migrateConsume, consume_obj. rewrite has_insert. simpl.
  rewrite getField_insert. simpl. rewrite null_to_blank_insert. simpl.
  rewrite getField_insert. simpl. apply numeric_insert.
Qed.

(** From the object case to every source. *)
Tactic Notation "other_case" reference(f) hyp(Hk) :=
  try (rewrite alter_lift_other; [|by rewrite Hk]);
  unfold f;
  first [rewrite (has_Some _ _ _ Hk) | rewrite (has_None _ _ Hk) | idtac]; simpl;
  repeat (first [rewrite (read_Some _ _ _ Hk) | rewrite (read_None _ _ Hk)
                | progress unfold assign2]; simpl);
  done.

Lemma migrateFormulaField_spec k1 k2 s :
  migrateFormulaField k1 k2 s = Some (alter (lift (rewrite_field formula_string k2)) k1 s).
Proof.
  destruct (s !! k1) as [v|] eqn:Hk; simpl.
  - destruct v; simpl; try by other_case migrateFormulaField Hk.
    rewrite (alter_lift_obj _ _ _ _ Hk).
    rewrite <- (insert_id _ _ _ Hk) at 1. apply migrateFormulaField_insert.
  - by other_case migrateFormulaField Hk.
Qed.

Lemma migrateRanges_spec s :
  migrateRanges s = if derefs (s !! "range") then Some (alter (lift range_obj) "range" s) else None.
Proof.
  destruct (s !! "range") as [v|] eqn:Hk; simpl.
  - destruct v; simpl; try by other_case migrateRanges Hk.
    rewrite (alter_lift_obj _ _ _ _ Hk).
    rewrite <- (insert_id _ _ _ Hk) at 1. apply migrateRanges_insert.
  - by other_case migrateRanges Hk.
Qed.

Lemma migrateTargets_spec s :
  migrateTargets s = Some (alter (lift target_obj) "target" s).
Proof.
  destruct (s !! "target") as [v|] eqn:Hk; simpl.
  - destruct v; simpl; try by other_case migrateTargets Hk.
    rewrite (alter_lift_obj _ _ _ _ Hk).
    rewrite <- (insert_id _ _ _ Hk) at 1. apply migrateTargets_insert.
  - by other_case migrateTargets Hk.
Qed.

Lemma migrateUses_spec s :
  migrateUses s = if writable (s !! "uses") then Some (alter (lift uses_obj) "uses" s) else None.
Proof.
  destruct (s !! "uses") as [v|] eqn:Hk; simpl.
  - destruct v; simpl; try by other_case migrateUses Hk.
    rewrite (alter_lift_obj _ _ _ _ Hk).
    rewrite <- (insert_id _ _ _ Hk) at 1. apply migrateUses_insert.
  - by other_case migrateUses Hk.
Qed.

Lemma migrateConsume_spec s :
  migrateConsume s = if derefs (s !! "consume") then Some (alter (lift consume_obj) "consume" s) else None.
Proof.
  destruct (s !! "consume") as [v|] eqn:Hk; simpl.
  - destruct v; simpl; try by other_case migrateConsume Hk.
    rewrite (alter_lift_obj _ _ _ _ Hk).
    rewrite <- (insert_id _ _ _ Hk) at 1. apply migrateConsume_insert.
  - by other_case migrateConsume Hk.
Qed.

Lemma migrateFormulaFields_spec s :
  migrateFormulaFields s
  = Some (alter (lift (rewrite_field formula_string "value")) "duration"
            (alter (lift (rewrite_field formula_string "max")) "uses" s)).
Proof.
  unfold migrateFormulaFields. rewrite migrateFormulaField_spec. simpl.
  apply migrateFormulaField_spec.
Qed.
End basics.

Section normal_form.
Import ActivatedEffectTemplate.
Context {E : Engine}.
Implicit Types (s o : obj) (k : string) (v x : value).

Lemma lookup_migrated s k : migrated s !! k = field_migration k <$> s !! k.
Proof. unfold migrated. rewrite map_lookup_imap. by destruct (s !! k). Qed.

Lemma derefs_lift (g : obj → obj) (v : option value) :
  derefs (lift g <$> v) = derefs v.
Proof. by destruct v as [[]|]. Qed.

Lemma writable_lift (g : obj → obj) (v : option value) :
  writable (lift g <$> v) = writable v.
Proof. by destruct v as [[]|]. Qed.

Lemma lift_compose (f g : obj → obj) v : lift f (lift g v) = lift (f ∘ g) v.
Proof. by destruct v. Qed.

Lemma migrateData_spec s :
  migrateData s = if well_shaped s then Some (migrated s) else None.
Proof.
  unfold migrateData, well_shaped.
  rewrite migrateFormulaFields_spec.
  set (s1 := alter _ "duration" _). change (Some s1 ≫= ?f) with (f s1).
  cbv beta.
  assert (s1 !! "range" = s !! "range") as Hr.
  { unfold s1. by rewrite !lookup_alter_ne. }
  rewrite migrateRanges_spec, Hr. destruct (derefs (s !! "range")); [|done].
  set (s2 := alter _ "range" _). change (Some s2 ≫= ?f) with (f s2). cbv beta.
  rewrite migrateTargets_spec.
  set (s3 := alter _ "target" _). change (Some s3 ≫= ?f) with (f s3). cbv beta.
  assert (s3 !! "uses" = lift (rewrite_field formula_string "max") <$> s !! "uses") as Hu.
  { unfold s3, s2, s1. rewrite !lookup_alter_ne by done. apply lookup_alter_eq. }
  rewrite migrateUses_spec, Hu, writable_lift.
  destruct (writable (s !! "uses")); [|done].
  set (s4 := alter _ "uses" _). change (Some s4 ≫= ?f) with (f s4). cbv beta.
  assert (s4 !! "consume" = s !! "consume") as Hc.
  { unfold s4, s3, s2, s1. by rewrite !lookup_alter_ne. }
  rewrite migrateConsume_spec, Hc. destruct (derefs (s !! "consume")); [|done].
  simpl. f_equal. apply map_eq. intros k. rewrite lookup_migrated.
  unfold s4, s3, s2, s1, field_migration.
  rewrite !lookup_alter.
  repeat (case_decide; simplify_eq; try done).
  - by destruct (s !! "uses") as [[]|].
  - by destruct (s !! k).
Qed.
End normal_form.

Section fields.
Import ActivatedEffectTemplate.
Context {E : Engine}.
Implicit Types (s o : obj) (k : string) (v x : value) (h : value → option value).

Lemma read_rewrite_field h k o :
  read (rewrite_field h k o) k = default (read o k) (h (read o k)).
Proof.
  unfold rewrite_field. destruct (h (read o k)); [apply read_insert|done].
Qed.

Lemma read_rewrite_field_ne h k k' o :
  k ≠ k' → read (rewrite_field h k o) k' = read o k'.
Proof.
  intros. unfold rewrite_field. destruct (h (read o k)); [|done].
  by apply read_insert_ne.
Qed.

Lemma rewrite_field_fixed h k o : h (read o k) = None → rewrite_field h k o = o.
Proof. intros H. unfold rewrite_field. by rewrite H. Qed.

Lemma rewrite_field_settled h k o :
  settles h → h (read (rewrite_field h k o) k) = None.
Proof.
  intros Hh. rewrite read_rewrite_field.
  destruct (h (read o k)) eqn:Hv; simpl; eauto.
Qed.

Lemma rewrite_field_idem h k o :
  settles h → rewrite_field h k (rewrite_field h k o) = rewrite_field h k o.
Proof. intros. by apply rewrite_field_fixed, rewrite_field_settled. Qed.

Lemma rewrite_field_comm h h' k k' o :
  k ≠ k' →
  rewrite_field h k (rewrite_field h' k' o) = rewrite_field h' k' (rewrite_field h k o).
Proof.
  intros Hne. unfold rewrite_field at 1 3.
  rewrite !read_rewrite_field_ne by done.
  unfold rewrite_field.
  destruct (h (read o k)), (h' (read o k')); try done.
  by apply insert_insert_ne.
Qed.

Lemma idem_compose (f g : obj → obj) :
  (∀ o, f (f o) = f o) → (∀ o, g (g o) = g o) → (∀ o, f (g o) = g (f o)) →
  ∀ o, f (g (f (g o))) = f (g o).
Proof. intros Hf Hg Hc o. by rewrite <- (Hc (g o)), Hf, Hg. Qed.

Lemma numeric_string_settles : settles numeric_string.
Proof. intros [] x; simpl; try done. by repeat case_match; intros [= <-]. Qed.

Lemma null_to_blank_settles : settles null_to_blank.
Proof. by intros [] x; simpl; try done; intros [= <-]. Qed.

Lemma blank_to_null_settles : settles blank_to_null.
Proof. intros [] x; simpl; try done. by case_match; intros [= <-]. Qed.

Lemma undefined_to_blank_settles : settles undefined_to_blank.
Proof. by intros [] x; simpl; try done; intros [= <-]. Qed.

Lemma formula_string_settles : toString_zero → settles formula_string.
Proof.
  intros Hz v x. unfold formula_string.
  destruct (includes_zero_null v) eqn:Hv.
  - by intros [= <-].
  - destruct v; try done. intros [= <-].
    unfold includes_zero_null in *. case_bool_decide as H0; [|done].
    apply Hz in H0. congruence.
Qed.

Lemma target_obj_idem o : target_obj (target_obj o) = target_obj o.
Proof.
  unfold target_obj.
  apply (idem_compose (rewrite_field null_to_blank "type")
           (λ o, rewrite_field null_to_blank "units" (rewrite_field blank_to_null "value" o))).
  - intros. apply rewrite_field_idem, null_to_blank_settles.
  - apply (idem_compose (rewrite_field null_to_blank "units")
             (rewrite_field blank_to_null "value")).
    + intros. apply rewrite_field_idem, null_to_blank_settles.
    + intros. apply rewrite_field_idem, blank_to_null_settles.
    + intros. by apply rewrite_field_comm.
  - intros. rewrite (rewrite_field_comm _ _ "type" "units") by done.
    by rewrite (rewrite_field_comm _ _ "type" "value").
Qed.

Lemma uses_obj_idem o : uses_obj (uses_obj o) = uses_obj o.
Proof.
  apply (idem_compose (rewrite_field undefined_to_blank "recovery")
           (rewrite_field numeric_string "value")).
  - intros. apply rewrite_field_idem, undefined_to_blank_settles.
  - intros. apply rewrite_field_idem, numeric_string_settles.
  - intros. by apply rewrite_field_comm.
Qed.

Lemma consume_obj_idem o : consume_obj (consume_obj o) = consume_obj o.
Proof.
  apply (idem_compose (rewrite_field numeric_string "amount")
           (rewrite_field null_to_blank "type")).
  - intros. apply rewrite_field_idem, numeric_string_settles.
  - intros. apply rewrite_field_idem, null_to_blank_settles.
  - intros. by apply rewrite_field_comm.
Qed.

Lemma uses_formula_idem o :
  toString_zero →
  let f := uses_obj ∘ rewrite_field formula_string "max" in f (f o) = f o.
Proof.
  intros Hz f. unfold f; simpl.
  apply (idem_compose uses_obj (rewrite_field formula_string "max")).
  - apply uses_obj_idem.
  - intros. by apply rewrite_field_idem, formula_string_settles.
  - intros. unfold uses_obj.
    rewrite <- (rewrite_field_comm _ _ "max" "value") by done.
    by rewrite <- (rewrite_field_comm _ _ "max" "recovery").
Qed.

End fields.

Section ranges.
Import ActivatedEffectTemplate.
Context {E : Engine}.
Implicit Types (s o : obj) (k : string) (v x : value) (h : value → option value).

Lemma rewrite_field_insert_ne h k k' x o :
  k ≠ k' → rewrite_field h k (<[k' := x]> o) = <[k' := x]> (rewrite_field h k o).
Proof.
  intros Hne. unfold rewrite_field. rewrite read_insert_ne by done.
  destruct (h (read o k)); [|done]. by apply insert_insert_ne.
Qed.

Lemma range_value_obj_units h o :
  rewrite_field h "units" (range_value_obj o)
  = range_value_obj (rewrite_field h "units" o).
Proof.
  unfold range_value_obj. rewrite read_rewrite_field_ne by done.
  destruct (read o "value"); try done.
  case_decide; [by apply rewrite_field_insert_ne|].
  destruct (JSString.split "/" s) as [a rest].
  destruct (Number_isNumeric (Some a)), (head rest) as [l|]; try done;
    try destruct (Number_isNumeric (Some l)); try done;
    by rewrite !rewrite_field_insert_ne.
Qed.

Lemma range_value_obj_long o :
  numeric_string (read o "long") = None →
  numeric_string (read (range_value_obj o) "long") = None.
Proof.
  intros Hl. unfold range_value_obj.
  destruct (read o "value"); try done.
  case_decide; [by rewrite read_insert_ne|].
  destruct (JSString.split "/" s) as [a rest].
  destruct (Number_isNumeric (Some a)), (head rest) as [l|]; try done;
    try destruct (Number_isNumeric (Some l)); try done;
    rewrite ?read_insert, ?read_insert_ne by done; done.
Qed.

Lemma range_value_obj_eq o (s a : string) (rest : list string) :
  read o "value" = VStr s → s ≠ "" → JSString.split "/" s = (a, rest) →
  range_value_obj o =
  let o := if Number_isNumeric (Some a)
           then <["value" := VNum (StringToNumber a)]> o else o in
  match head rest with
  | Some l => if Number_isNumeric (Some l)
              then <["long" := VNum (StringToNumber l)]> o else o
  | None => o
  end.
Proof.
  intros Hv Hs Hsp. unfold range_value_obj. rewrite Hv, Hsp.
  by destruct (decide (s = "")).
Qed.

Lemma range_value_obj_other o :
  match read o "value" with VStr _ => False | _ => True end →
  range_value_obj o = o.
Proof. intros H. unfold range_value_obj. by destruct (read o "value"). Qed.

Lemma range_value_obj_blank o :
  read o "value" = VStr "" → range_value_obj o = <["value" := VNull]> o.
Proof. intros H. unfold range_value_obj. by rewrite H. Qed.

Lemma range_value_obj_idem o : range_value_obj (range_value_obj o) = range_value_obj o.
Proof.
  destruct (read o "value") as [| |b|n|s|oo] eqn:Hv;
    try (by rewrite !(range_value_obj_other o) by (by rewrite Hv)).
  destruct (decide (s = "")) as [->|Hs].
  { rewrite (range_value_obj_blank o) by done.
    apply range_value_obj_other. by rewrite read_insert. }
  destruct (JSString.split "/" s) as [a rest] eqn:Hsp.
  rewrite (range_value_obj_eq o s a rest) by done. simpl.
  destruct (Number_isNumeric (Some a)) eqn:Ha.
  - apply range_value_obj_other.
    destruct (head rest) as [l|]; [destruct (Number_isNumeric (Some l))|];
      rewrite ?(read_insert_ne _ "long" "value") by done; by rewrite read_insert.
  - destruct (head rest) as [l|] eqn:Hr;
      [destruct (Number_isNumeric (Some l)) eqn:Hl|].
    + rewrite (range_value_obj_eq _ s a rest); [|by rewrite read_insert_ne|done..].
      simpl. rewrite Ha, Hr, Hl. apply insert_insert_eq.
    + rewrite (range_value_obj_eq _ s a rest) by done. simpl. by rewrite Ha, Hr, Hl.
    + rewrite (range_value_obj_eq _ s a rest) by done. simpl. by rewrite Ha, Hr.
Qed.

Lemma range_obj_idem o : range_obj (range_obj o) = range_obj o.
Proof.
  unfold range_obj.
  set (o' := rewrite_field numeric_string "long" (rewrite_field null_to_blank "units" o)).
  rewrite range_value_obj_units.
  assert (rewrite_field null_to_blank "units" o' = o') as ->.
  { unfold o'. rewrite (rewrite_field_comm _ _ "units" "long") by done.
    by rewrite rewrite_field_idem by apply null_to_blank_settles. }
  rewrite (rewrite_field_fixed numeric_string "long" (range_value_obj o')).
  - apply range_value_obj_idem.
  - apply range_value_obj_long. apply rewrite_field_settled, numeric_string_settles.
Qed.
End ranges.

(** ** The senses migration *)

Section senses.
Import CreatureTemplate.
Context {E : Engine} {C : Config}.
Implicit Types (s o : obj) (k : string) (v x : value) (ws : list (string * value)).

Lemma assign3_insert s k1 k2 k3 (a o : obj) x :
  assign3 (<[k1 := VObj (<[k2 := VObj o]> a)]> s) k1 k2 k3 x
  = Some (<[k1 := VObj (<[k2 := VObj (<[k3 := x]> o)]> a)]> s).
Proof.
  unfold assign3. rewrite getField_insert, read_insert. simpl.
  rewrite assign2_insert. by rewrite insert_insert_eq.
Qed.

(** Assignments below [k1] leave the other properties of the source. *)
Lemma assign2_frame s s' k1 k2 x k :
  assign2 s k1 k2 x = Some s' → k1 ≠ k → s' !! k = s !! k.
Proof.
  unfold assign2. destruct (setField (read s k1) k2 x); [|done].
  intros [= <-] ?. by apply lookup_insert_ne.
Qed.

Lemma assign3_frame s s' k1 k2 k3 x k :
  assign3 s k1 k2 k3 x = Some s' → k1 ≠ k → s' !! k = s !! k.
Proof.
  unfold assign3. destruct (getField (read s k1) k2) as [i|]; [|done]. simpl.
  destruct (setField i k3 x); [|done]. apply assign2_frame.
Qed.

Lemma apply_writes_cons w ws o :
  apply_writes (w :: ws) o = apply_writes ws (<[w.1 := w.2]> o).
Proof. done. Qed.

Lemma apply_writes_app ws1 ws2 o :
  apply_writes (ws1 ++ ws2) o = apply_writes ws2 (apply_writes ws1 o).
Proof. apply foldl_app. Qed.

Lemma apply_writes_union ws o : apply_writes ws o = apply_writes ws ∅ ∪ o.
Proof.
  revert o. induction ws as [|w ws IH]; intros o.
  - unfold apply_writes. simpl. by rewrite (left_id_L ∅ (∪)).
  - rewrite !apply_writes_cons, IH, (IH (<[_:=_]> ∅)).
    rewrite <- (assoc_L (∪)). f_equal.
    by rewrite insert_empty, <- insert_union_singleton_l.
Qed.

Lemma apply_writes_idem ws o :
  apply_writes ws (apply_writes ws o) = apply_writes ws o.
Proof.
  rewrite (apply_writes_union ws (apply_writes _ _)), (apply_writes_union ws o).
  by rewrite (assoc_L (∪)), (idemp_L (∪)).
Qed.

Lemma apply_writes_lookup_other ws o k :
  Forall (λ w, w.1 ≠ k) ws → apply_writes ws o !! k = o !! k.
Proof.
  revert o. induction ws as [|w ws IH]; intros o Hws; [done|].
  inversion_clear Hws. rewrite apply_writes_cons, IH by done.
  by apply lookup_insert_ne.
Qed.

(** One turn of the loop on a source whose senses are an object. *)
Lemma senses_term_insert s (a o : obj) (b : bool) t :
  senses_term (<["attributes" := VObj (<["senses" := VObj o]> a)]> s, b) t
  = Some (<["attributes" :=
             VObj (<["senses" := VObj (apply_writes (omap term_write [t]) o)]> a)]> s,
          b || bool_decide (is_Some (term_write t))).
Proof.
  unfold senses_term, term_write. simpl.
  destruct (JSString.match_pattern (JSString.trim t)) as [[m1 m2]|]; simpl.
  - destruct (in_senses (JSString.toLowerCase m1)); simpl.
    + rewrite assign3_insert. simpl. by rewrite orb_true_r.
    + by rewrite orb_false_r.
  - by rewrite orb_false_r.
Qed.

Lemma senses_loop_insert s (a o : obj) (b : bool) ts :
  senses_loop (<["attributes" := VObj (<["senses" := VObj o]> a)]> s, b) ts
  = Some (<["attributes" :=
             VObj (<["senses" := VObj (apply_writes (omap term_write ts) o)]> a)]> s,
          b || bool_decide (omap term_write ts ≠ [])).
Proof.
  revert o b. induction ts as [|t ts IH]; intros o b.
  - simpl. by rewrite orb_false_r.
  - cbn [senses_loop]. rewrite senses_term_insert.
    change (Some ?st ≫= ?f) with (f st). cbv beta. rewrite IH.
    f_equal. f_equal.
    + cbn [omap list_omap]. destruct (term_write t); done.
    + cbn [omap list_omap]. destruct (term_write t) as [w|]; simpl.
      * by rewrite !orb_true_r.
      * by rewrite orb_false_r.
Qed.

Lemma read_obj_insert s k (o : obj) : read s k = VObj o → <[k := VObj o]> s = s.
Proof.
  unfold read. destruct (s !! k) eqn:Hk; simpl; [|done].
  intros ->. by apply insert_id.
Qed.

Lemma senses_prelude s (a o : obj) (K : obj → option obj) :
  senses_shape s = Some (a, o) →
  (let source := if nullish (read s "attributes")
                 then <["attributes" := VObj ∅]> s else s in
   senses ← getField (read source "attributes") "senses";
   source ← (if nullish senses
             then assign2 source "attributes" "senses" (VObj ∅)
             else Some source);
   K source)
  = K (<["attributes" := VObj (<["senses" := VObj o]> a)]> s).
Proof.
  intros Hshape. unfold senses_shape in Hshape.
  destruct (read s "attributes") as [| |?|?|?|a'] eqn:Ha; simplify_eq/=.
  - rewrite getField_insert. rewrite read_None in * by done. simplify_eq/=.
    by rewrite assign2_insert.
  - rewrite getField_insert. rewrite read_None in * by done. simplify_eq/=.
    by rewrite assign2_insert.
  - rewrite <- (read_obj_insert _ _ _ Ha), getField_insert.
    destruct (read a' "senses") as [| |?|?|?|o'] eqn:Hs; simplify_eq/=.
    + by rewrite assign2_insert, insert_insert_eq.
    + by rewrite assign2_insert, insert_insert_eq.
    + by rewrite insert_insert_eq, (read_obj_insert _ _ _ Hs).
Qed.

Lemma migrateSensesData_spec s original (a o : obj) :
  getFieldOpt (read s "traits") "senses" = VStr original →
  senses_shape s = Some (a, o) →
  migrateSensesData s
  = Some (<["attributes" :=
             VObj (<["senses" := VObj (apply_writes (senses_writes original) o)]> a)]> s).
Proof.
  intros Ht Hshape. unfold migrateSensesData. rewrite Ht.
  rewrite (senses_prelude s a o) by done.
  unfold senses_writes, terms_of.
  destruct (JSString.split "," original) as [first rest].
  rewrite senses_loop_insert. change (Some ?st ≫= ?f) with (f st). cbv beta iota.
  rewrite orb_false_l.
  destruct (omap term_write (first :: rest)) as [|w ws] eqn:Hws.
  - rewrite bool_decide_eq_false_2 by (by intros []). simpl.
    destruct (JSString.truthy original); simpl; [|done].
    by rewrite assign3_insert.
  - rewrite bool_decide_eq_true_2 by done. done.
Qed.
End senses.

Section senses_frame.
Import CreatureTemplate.
Context {E : Engine} {C : Config}.
Implicit Types (s o : obj) (k : string) (v x : value) (ws : list (string * value)).

Lemma senses_term_frame st st' t k :
  senses_term st t = Some st' → "attributes" ≠ k → st'.1 !! k = st.1 !! k.
Proof.
  unfold senses_term. intros H Hk. repeat case_match; simplify_eq/=; try done.
  destruct (assign3 _ _ _ _ _) eqn:Ha; simplify_eq/=.
  by eapply assign3_frame.
Qed.

Lemma senses_loop_frame st st' ts k :
  senses_loop st ts = Some st' → "attributes" ≠ k → st'.1 !! k = st.1 !! k.
Proof.
  revert st. induction ts as [|t ts IH]; intros st H Hk; simplify_eq/=; [done|].
  destruct (senses_term st t) as [st1|] eqn:H1; simplify_eq/=.
  rewrite (IH _ H) by done. by eapply senses_term_frame.
Qed.

(** When [attributes.senses] holds a primitive, no assignment goes
    through. *)
Lemma assign3_primitive s k1 k2 k3 x p :
  getField (read s k1) k2 = Some p → primitive p = true →
  assign3 s k1 k2 k3 x = None.
Proof. unfold assign3. intros -> ?. by destruct p. Qed.

Lemma senses_loop_primitive s p st' (b : bool) ts :
  getField (read s "attributes") "senses" = Some p → primitive p = true →
  senses_loop (s, b) ts = Some st' → st' = (s, b).
Proof.
  intros Hp Hprim. revert st'.
  induction ts as [|t ts IH]; intros st' H; simplify_eq/=; [done|].
  destruct (senses_term (s, b) t) as [st1|] eqn:H1; simplify_eq/=.
  assert (st1 = (s, b)) as ->; [|by apply IH].
  unfold senses_term in H1. repeat case_match; simplify_eq/=; try done.
  by rewrite (assign3_primitive _ _ _ _ _ _ Hp Hprim) in H1.
Qed.

#[local] Arguments senses_loop : simpl never.

Lemma migrateSensesData_frame s s' k :
  migrateSensesData s = Some s' → "attributes" ≠ k → s' !! k = s !! k.
Proof.
  unfold migrateSensesData. intros H Hk.
  destruct (getFieldOpt (read s "traits") "senses") as [| |?|?|original|?];
    simplify_eq/=; try done.
  set (s0 := if nullish (read s "attributes") then _ else s) in H.
  assert (s0 !! k = s !! k) as <-.
  { unfold s0. destruct (nullish _); [|done]. by apply lookup_insert_ne. }
  destruct (getField (read s0 "attributes") "senses") as [v|]; simplify_eq/=.
  destruct (if nullish v then _ else _) as [s1|] eqn:H1; simplify_eq/=.
  assert (s1 !! k = s0 !! k) as <-.
  { destruct (nullish v); simplify_eq; [|done]. by eapply assign2_frame. }
  destruct (JSString.split "," _) as [first rest].
  destruct (senses_loop _ _) as [[s2 b]|] eqn:H2; simplify_eq/=.
  apply senses_loop_frame with (k := k) in H2; [|done]. simpl in H2. rewrite <- H2.
  destruct (negb b && _); simplify_eq; [|done]. by eapply assign3_frame.
Qed.

Lemma getField_obj s k1 k2 (a : obj) :
  read s k1 = VObj a → getField (read s k1) k2 = Some (read a k2).
Proof. by intros ->. Qed.

Lemma senses_shape_None s s' original :
  getFieldOpt (read s "traits") "senses" = VStr original →
  senses_shape s = None →
  migrateSensesData s = Some s' → s' = s.
Proof.
  intros Ht Hshape. unfold migrateSensesData. rewrite Ht. cbv zeta.
  unfold senses_shape in Hshape.
  destruct (read s "attributes") as [| |?|?|?|a] eqn:Ha; simplify_eq/=;
    try (by rewrite read_None in Hshape);
    try (by unfold assign2; rewrite Ha).
  rewrite Ha. simpl.
  change (default VUndefined (a !! "senses")) with (read a "senses").
  destruct (read a "senses") as [| |?|?|?|o] eqn:Hs; simplify_eq/=.
  all: destruct (JSString.split "," original) as [first rest].
  all: intros H.
  all: destruct (senses_loop _ _) as [[s2 b']|] eqn:H2; simplify_eq/=.
  all: eapply senses_loop_primitive in H2;
         [|by rewrite (getField_obj _ _ _ _ Ha), Hs|done].
  all: simplify_eq/=.
  all: destruct (JSString.truthy original); simplify_eq/=; try done.
  all: by erewrite assign3_primitive in H;
         [|by rewrite (getField_obj _ _ _ _ Ha), Hs|].
Qed.

Lemma senses_shape_migrated s (a o' : obj) :
  senses_shape (<["attributes" := VObj (<["senses" := VObj o']> a)]> s)
  = Some (<["senses" := VObj o']> a, o').
Proof. unfold senses_shape. rewrite read_insert. simpl. by rewrite read_insert. Qed.

Lemma migrateSensesData_other s :
  match getFieldOpt (read s "traits") "senses" with VStr _ => False | _ => True end →
  migrateSensesData s = Some s.
Proof. unfold migrateSensesData. by destruct (getFieldOpt _ _). Qed.

Lemma migrateSensesData_idem s s' :
  migrateSensesData s = Some s' → migrateSensesData s' = Some s'.
Proof.
  intros H.
  destruct (getFieldOpt (read s "traits") "senses") as [| |?|?|original|?] eqn:Ht;
    try (rewrite (migrateSensesData_other s) in H by (by rewrite Ht);
         simplify_eq; apply migrateSensesData_other; by rewrite Ht).
  destruct (senses_shape s) as [[a o]|] eqn:Hshape.
  - rewrite (migrateSensesData_spec s original a o) in H by done.
    injection H as <-.
    set (o' := apply_writes (senses_writes original) o).
    rewrite (migrateSensesData_spec
               (<["attributes" := VObj (<["senses" := VObj o']> a)]> s)
               original (<["senses" := VObj o']> a) o').
    + unfold o'. by rewrite apply_writes_idem, !insert_insert_eq.
    + by rewrite read_insert_ne.
    + apply senses_shape_migrated.
  - by rewrite (senses_shape_None s s' original) in * by done.
Qed.

End senses_frame.

(** ** The migrations of [ActivatedEffectTemplate] *)

Section activated.
Import ActivatedEffectTemplate.
Context {E : Engine}.
Implicit Types (s o : obj) (k : string) (v x : value).

Lemma field_migration_uses :
  field_migration "uses" = lift (uses_obj ∘ rewrite_field formula_string "max").
Proof. done. Qed.

Lemma field_migration_duration :
  field_migration "duration" = lift (rewrite_field formula_string "value").
Proof. done. Qed.

Lemma field_migration_range : field_migration "range" = lift range_obj.
Proof. done. Qed.

Lemma field_migration_target : field_migration "target" = lift target_obj.
Proof. done. Qed.

Lemma field_migration_consume : field_migration "consume" = lift consume_obj.
Proof. done. Qed.

Lemma field_migration_other k v :
  k ∉ ["duration"; "range"; "target"; "uses"; "consume"] → field_migration k v = v.
Proof.
  intros Hk. unfold field_migration.
  repeat (case_decide; [subst; exfalso; apply Hk; set_solver|]). done.
Qed.

Lemma field_migration_lift k : ∃ g : obj → obj, ∀ v, field_migration k v = lift g v.
Proof.
  unfold field_migration. repeat (case_decide; [by eexists|]).
  exists id. by intros [].
Qed.

Lemma migrateData_Some s s' :
  migrateData s = Some s' ↔ well_shaped s = true ∧ s' = migrated s.
Proof.
  rewrite migrateData_spec. destruct (well_shaped s); split.
  - by intros [= <-]. - by intros [_ ->]. - done. - by intros [? _].
Qed.

Lemma read_migrated s k : read (migrated s) k = field_migration k (read s k).
Proof.
  unfold read. rewrite lookup_migrated. destruct (s !! k); [done|]. simpl.
  destruct (field_migration_lift k) as [g ->]. done.
Qed.

Lemma well_shaped_migrated s : well_shaped (migrated s) = well_shaped s.
Proof.
  unfold well_shaped. rewrite !lookup_migrated.
  rewrite field_migration_range, field_migration_uses, field_migration_consume.
  by rewrite !derefs_lift, writable_lift.
Qed.

Lemma lift_idem (g : obj → obj) v : (∀ o, g (g o) = g o) → lift g (lift g v) = lift g v.
Proof. intros Hg. destruct v; simpl; by rewrite ?Hg. Qed.

Lemma field_migration_idem k v :
  toString_zero → field_migration k (field_migration k v) = field_migration k v.
Proof.
  intros Hz. unfold field_migration. repeat case_decide; try done; apply lift_idem.
  - intros o. by apply (uses_formula_idem o).
  - intros. by apply rewrite_field_idem, formula_string_settles.
  - apply range_obj_idem.
  - apply target_obj_idem.
  - apply consume_obj_idem.
Qed.

Lemma migrated_idem s : toString_zero → migrated (migrated s) = migrated s.
Proof.
  intros Hz. apply map_eq. intros k. rewrite !lookup_migrated.
  destruct (s !! k); [|done]. simpl. by rewrite field_migration_idem.
Qed.

Lemma migrateData_idem s s' :
  toString_zero → migrateData s = Some s' → migrateData s' = Some s'.
Proof.
  intros Hz [Hs ->]%migrateData_Some. apply migrateData_Some.
  by rewrite well_shaped_migrated, migrated_idem.
Qed.

(** A migration that rewrites the object under one property, and throws
    or not according to what the property holds, is idempotent when the
    rewriting is. *)
Lemma guarded_alter_idem (f : obj → option obj) (guard : option value → bool)
    (g : obj → obj) k :
  (∀ s, f s = if guard (s !! k) then Some (alter (lift g) k s) else None) →
  (∀ ov : option value, guard (lift g <$> ov) = guard ov) →
  (∀ o, g (g o) = g o) →
  ∀ s s', f s = Some s' → f s' = Some s'.
Proof.
  intros Hf Hguard Hg s s'. rewrite !Hf.
  destruct (guard (s !! k)) eqn:Hs; [|done]. intros [= <-].
  rewrite lookup_alter_eq, Hguard, Hs. f_equal.
  rewrite alter_alter_eq. apply alter_ext. intros v _. simpl. by apply lift_idem.
Qed.

Lemma migrateRanges_idem s s' : migrateRanges s = Some s' → migrateRanges s' = Some s'.
Proof.
  apply (guarded_alter_idem _ derefs range_obj "range").
  - apply migrateRanges_spec. - apply derefs_lift. - apply range_obj_idem.
Qed.

Lemma migrateTargets_idem s s' : migrateTargets s = Some s' → migrateTargets s' = Some s'.
Proof.
  apply (guarded_alter_idem _ (λ _, true) target_obj "target").
  - apply migrateTargets_spec. - done. - apply target_obj_idem.
Qed.

Lemma migrateUses_idem s s' : migrateUses s = Some s' → migrateUses s' = Some s'.
Proof.
  apply (guarded_alter_idem _ writable uses_obj "uses").
  - apply migrateUses_spec. - apply writable_lift. - apply uses_obj_idem.
Qed.

Lemma migrateConsume_idem s s' : migrateConsume s = Some s' → migrateConsume s' = Some s'.
Proof.
  apply (guarded_alter_idem _ derefs consume_obj "consume").
  - apply migrateConsume_spec. - apply derefs_lift. - apply consume_obj_idem.
Qed.

Lemma migrateFormulaField_idem k1 k2 s s' :
  toString_zero →
  migrateFormulaField k1 k2 s = Some s' → migrateFormulaField k1 k2 s' = Some s'.
Proof.
  intros Hz.
  apply (guarded_alter_idem _ (λ _, true) (rewrite_field formula_string k2) k1).
  - apply migrateFormulaField_spec. - done.
  - intros. by apply rewrite_field_idem, formula_string_settles.
Qed.

Lemma migrateFormulaFields_idem s s' :
  toString_zero →
  migrateFormulaFields s = Some s' → migrateFormulaFields s' = Some s'.
Proof.
  intros Hz. rewrite !migrateFormulaFields_spec. intros [= <-]. f_equal.
  apply map_eq. intros k. rewrite !lookup_alter.
  repeat case_decide; simplify_eq; try done.
  - rewrite <- option_fmap_compose. apply option_fmap_ext. intros v. simpl.
    apply lift_idem. intros. by apply rewrite_field_idem, formula_string_settles.
  - rewrite <- option_fmap_compose. apply option_fmap_ext. intros v. simpl.
    apply lift_idem. intros. by apply rewrite_field_idem, formula_string_settles.
Qed.

End activated.

Section claims_activated.
Import ActivatedEffectTemplate.
Context {E : Engine}.
Implicit Types (s o : obj) (k : string) (v x : value).

Lemma getFieldOpt_lift (g : obj → obj) v k :
  getFieldOpt (lift g v) k
  = match v with VObj o => read (g o) k | _ => VUndefined end.
Proof. by destruct v. Qed.

Lemma getFieldOpt_read v k :
  getFieldOpt v k = match v with VObj o => read o k | _ => VUndefined end.
Proof. by destruct v. Qed.

Lemma formula_string_canonical before :
  let after := default before (formula_string before) in
  ((before = VNull ∨ before = VStr "0"
    ∨ ∃ n, before = VNum n ∧ num_is_zero n = true) → after = VStr "")
  ∧ (∀ n, before = VNum n → num_is_zero n = false →
          after = VStr (Number_toString n))
  ∧ (∀ n, after ≠ VNum n).
Proof.
  unfold formula_string. repeat split.
  - intros [->|[->|(n & -> & Hn)]]; try done.
    unfold includes_zero_null. by rewrite Hn.
  - intros n -> Hn. unfold includes_zero_null. by rewrite Hn.
  - intros n. destruct (includes_zero_null before) eqn:Hb; [done|].
    by destruct before.
Qed.

(** C4.  After [migrateData], a [uses.max] or [duration.value] that was 0,
    ["0"] or [null] is the empty string, one that was another number is that
    number's string, and neither is a number. *)
Theorem formula_fields_canonical source source' k1 k2 :
  migrateData source = Some source' →
  (k1 = "uses" ∧ k2 = "max") ∨ (k1 = "duration" ∧ k2 = "value") →
  let before := getFieldOpt (read source k1) k2 in
  let after := getFieldOpt (read source' k1) k2 in
  ((before = VNull ∨ before = VStr "0"
    ∨ ∃ n, before = VNum n ∧ num_is_zero n = true) → after = VStr "")
  ∧ (∀ n, before = VNum n → num_is_zero n = false →
          after = VStr (Number_toString n))
  ∧ (∀ n, after ≠ VNum n).
Proof.
  intros [_ ->]%migrateData_Some Hk. cbv zeta. rewrite read_migrated.
  assert (getFieldOpt (field_migration k1 (read source k1)) k2
          = default (getFieldOpt (read source k1) k2)
              (formula_string (getFieldOpt (read source k1) k2))) as ->.
  { destruct Hk as [[-> ->]|[-> ->]].
    - rewrite field_migration_uses, getFieldOpt_lift, getFieldOpt_read.
      destruct (read source "uses"); try done. simpl. unfold uses_obj.
      rewrite !read_rewrite_field_ne by done. apply read_rewrite_field.
    - rewrite field_migration_duration, getFieldOpt_lift, getFieldOpt_read.
      destruct (read source "duration"); try done. apply read_rewrite_field. }
  apply formula_string_canonical.
Qed.

(** C9.  [migrateData] leaves every property of the source other than
    [duration], [range], [target], [uses] and [consume] as it was. *)
Theorem migrateData_frame source source' k :
  migrateData source = Some source' →
  k ∉ ["duration"; "range"; "target"; "uses"; "consume"] →
  source' !! k = source !! k.
Proof.
  intros [_ ->]%migrateData_Some Hk. rewrite lookup_migrated.
  destruct (source !! k); [|done]. simpl. by rewrite field_migration_other.
Qed.

(** C2.  [migrateData] throws on a source whose [range], [uses] or
    [consume] is [null], and on one whose [uses] is a primitive. *)
Theorem migrateData_throws :
  migrateData {[ "range" := VNull ]} = None
  ∧ migrateData {[ "uses" := VNull ]} = None
  ∧ migrateData {[ "consume" := VNull ]} = None
  ∧ migrateData {[ "uses" := VBool true ]} = None
  ∧ migrateData {[ "target" := VNull; "duration" := VNull ]}
    = Some {[ "target" := VNull; "duration" := VNull ]}.
Proof.
  repeat split.
Qed.

(** [migrateData] completes exactly on the well-shaped sources. *)
Lemma migrateData_total source :
  is_Some (migrateData source) ↔ well_shaped source = true.
Proof.
  rewrite migrateData_spec. by destruct (well_shaped source).
Qed.

Lemma numeric_string_of (s : string) :
  s ≠ "" → Number_isNumeric (Some s) = true →
  numeric_string (VStr s) = Some (VNum (StringToNumber s)).
Proof. intros Hs Hn. unfold numeric_string. rewrite Hn. by destruct (decide (s = "")). Qed.

Lemma isNumeric_nonblank (s : string) : Number_isNumeric (Some s) = true → s ≠ "".
Proof. unfold Number_isNumeric. by destruct (decide (s = "")). Qed.

Lemma isNumeric_free (s : string) :
  numeric_no_slash → Number_isNumeric (Some s) = true → JSString.free_of "/" s.
Proof.
  intros Hlaw Hs a b ->. unfold Number_isNumeric in Hs.
  rewrite Hlaw in Hs. by destruct (decide _).
Qed.

Lemma read_range_value_obj o k :
  k ≠ "value" → k ≠ "long" → read (range_value_obj o) k = read o k.
Proof.
  intros Hv Hl. unfold range_value_obj. repeat case_match; try done;
    by rewrite ?read_insert_ne.
Qed.

(** C5.  After [migrateData], a [range.value] of the form ["A/B"] with
    numeric [A] and [B] is split into the numbers [A] and [B]; a blank
    [range.value] is [null] and a null [range.units] is the empty string. *)
Theorem ranges_split source source' :
  numeric_no_slash →
  migrateData source = Some source' →
  let before k := getFieldOpt (read source "range") k in
  let after k := getFieldOpt (read source' "range") k in
  (∀ A B, before "value" = VStr (A ++ "/" ++ B) →
          Number_isNumeric (Some A) = true → Number_isNumeric (Some B) = true →
          after "value" = VNum (StringToNumber A)
          ∧ after "long" = VNum (StringToNumber B))
  ∧ (before "value" = VStr "" → after "value" = VNull)
  ∧ (before "units" = VNull → after "units" = VStr "").
Proof.
  intros Hlaw [_ ->]%migrateData_Some. cbv beta zeta.
  rewrite read_migrated, field_migration_range, !getFieldOpt_lift.
  rewrite !getFieldOpt_read.
  destruct (read source "range") as [| |?|?|?|o]; try done.
  unfold range_obj.
  set (o' := rewrite_field numeric_string "long" (rewrite_field null_to_blank "units" o)).
  assert (read o' "value" = read o "value") as Hvalue.
  { unfold o'. by rewrite !read_rewrite_field_ne. }
  repeat split.
  - rewrite (range_value_obj_eq o' (A ++ "/" ++ B) A [B]).
    + simpl. rewrite H0, H1. rewrite read_insert_ne by done. apply read_insert.
    + by rewrite Hvalue.
    + apply isNumeric_nonblank in H0. by destruct A.
    + change (A +:+ "/" +:+ B) with (A +:+ String "/" B).
      rewrite split_app_free by (by apply isNumeric_free).
      by rewrite split_free by (by apply isNumeric_free).
  - rewrite (range_value_obj_eq o' (A ++ "/" ++ B) A [B]).
    + simpl. rewrite H0, H1. apply read_insert.
    + by rewrite Hvalue.
    + apply isNumeric_nonblank in H0. by destruct A.
    + change (A +:+ "/" +:+ B) with (A +:+ String "/" B).
      rewrite split_app_free by (by apply isNumeric_free).
      by rewrite split_free by (by apply isNumeric_free).
  - intros Hb. rewrite range_value_obj_blank by (by rewrite Hvalue).
    apply read_insert.
  - intros Hu. rewrite read_range_value_obj by done. unfold o'.
    rewrite read_rewrite_field_ne by done. rewrite read_rewrite_field, Hu. done.
Qed.

(** C7.  After [migrateData], in a source with [uses]: a blank
    [uses.value] is [null], a numeric string is its number and a missing
    [uses.recovery] is the empty string; in a source with [consume]: a null
    [consume.type] is the empty string, a blank [consume.amount] is [null]
    and a numeric string is its number. *)
Theorem uses_consume_coerced source source' :
  migrateData source = Some source' →
  let before k1 k2 := getFieldOpt (read source k1) k2 in
  let after k1 k2 := getFieldOpt (read source' k1) k2 in
  (has "uses" source = true →
     (before "uses" "value" = VStr "" → after "uses" "value" = VNull)
     ∧ (∀ n, before "uses" "value" = VStr n → Number_isNumeric (Some n) = true →
             after "uses" "value" = VNum (StringToNumber n))
     ∧ (before "uses" "recovery" = VUndefined → after "uses" "recovery" = VStr ""))
  ∧ (has "consume" source = true →
     (before "consume" "type" = VNull → after "consume" "type" = VStr "")
     ∧ (before "consume" "amount" = VStr "" → after "consume" "amount" = VNull)
     ∧ (∀ n, before "consume" "amount" = VStr n → Number_isNumeric (Some n) = true →
             after "consume" "amount" = VNum (StringToNumber n))).
Proof.
  intros [Hshape ->]%migrateData_Some. cbv beta zeta.
  rewrite !read_migrated, field_migration_uses, field_migration_consume.
  rewrite !getFieldOpt_lift, !getFieldOpt_read. split.
  - intros Hu. unfold has in Hu. apply bool_decide_eq_true in Hu as [u Hu].
    unfold well_shaped in Hshape. rewrite Hu in Hshape.
    rewrite (read_Some _ _ _ Hu).
    destruct u as [| |?|?|?|o]; try (by rewrite ?andb_false_r in Hshape).
    simpl. unfold uses_obj. repeat split.
    + intros Hv. rewrite read_rewrite_field_ne by done.
      rewrite read_rewrite_field, read_rewrite_field_ne, Hv by done. done.
    + intros n Hv Hn. rewrite read_rewrite_field_ne by done.
      rewrite read_rewrite_field, read_rewrite_field_ne, Hv by done.
      by rewrite numeric_string_of by (by try apply isNumeric_nonblank).
    + intros Hr. rewrite read_rewrite_field.
      by rewrite !read_rewrite_field_ne, Hr by done.
  - intros _. destruct (read source "consume") as [| |?|?|?|o]; try done.
    unfold consume_obj. repeat split.
    + intros Ht. rewrite read_rewrite_field_ne by done.
      by rewrite read_rewrite_field, Ht.
    + intros Ha. rewrite read_rewrite_field, read_rewrite_field_ne, Ha by done. done.
    + intros n Ha Hn. rewrite read_rewrite_field, read_rewrite_field_ne, Ha by done.
      by rewrite numeric_string_of by (by try apply isNumeric_nonblank).
Qed.

End claims_activated.

(** ** The migration of [CreatureTemplate] *)

Section claims_creature.
Import CreatureTemplate.
Context {E : Engine} {C : Config}.
Implicit Types (s o : obj) (k : string) (v x : value).

Lemma sense_insert s (a o : obj) k :
  sense (<["attributes" := VObj (<["senses" := VObj o]> a)]> s) k = read o k.
Proof. unfold sense. rewrite read_insert. simpl. by rewrite lookup_insert_eq. Qed.

Lemma term_write_Some t name digits :
  JSString.match_pattern (JSString.trim t) = Some (name, digits) →
  in_senses (JSString.toLowerCase name) = true →
  term_write t = Some (JSString.toLowerCase name,
                       VNum (toNearest_half (StringToNumber digits))).
Proof. intros Hm Hk. unfold term_write. by rewrite Hm, Hk. Qed.

Lemma term_write_inv t w :
  term_write t = Some w →
  ∃ name digits,
    JSString.match_pattern (JSString.trim t) = Some (name, digits)
    ∧ in_senses (JSString.toLowerCase name) = true
    ∧ w = (JSString.toLowerCase name, VNum (toNearest_half (StringToNumber digits))).
Proof.
  unfold term_write.
  destruct (JSString.match_pattern _) as [[name digits]|]; [|done].
  destruct (in_senses _) eqn:Hk; [|done]. intros [= <-]. by exists name, digits.
Qed.

Lemma senses_writes_matched original :
  omap term_write (terms_of original) ≠ [] →
  senses_writes original = omap term_write (terms_of original).
Proof. unfold senses_writes. by destruct (omap _ _). Qed.

Lemma migrateData_with_parent (super_migrateData : obj → option obj) s s' :
  migrateData super_migrateData s = Some s'
  ↔ ∃ s1, super_migrateData s = Some s1 ∧ migrateSensesData s1 = Some s'.
Proof.
  unfold migrateData. destruct (super_migrateData s) as [s1|]; simpl.
  - split; [by exists s1|]. by intros (? & [= <-] & ?).
  - split; [done|]. by intros (? & ? & ?).
Qed.

(** C8.  When [traits.senses] is absent or not a string, the senses
    migration leaves the source as it is. *)
Theorem senses_untouched source :
  (∀ original, getFieldOpt (read source "traits") "senses" ≠ VStr original) →
  migrateSensesData source = Some source.
Proof.
  intros H. apply migrateSensesData_other.
  destruct (getFieldOpt _ _) eqn:Hs; try done. by apply (H s).
Qed.

(** C10.  The senses migration keeps the legacy string in
    [traits.senses]. *)
Theorem senses_string_kept source source' original :
  getFieldOpt (read source "traits") "senses" = VStr original →
  migrateSensesData source = Some source' →
  getFieldOpt (read source' "traits") "senses" = VStr original.
Proof.
  intros Ht H. unfold read.
  by rewrite (migrateSensesData_frame _ _ "traits" H).
Qed.


(** C6.  Each comma-separated term that matches the pattern with a name
    whose lower case is a key of [CONFIG.DND5E.senses] sets that property
    of [attributes.senses] to its number, rounded to the nearest 0.5: the
    turn of the loop for the term makes the assignment, and the property
    holds that number at the end unless a later term sets it again. *)
Theorem senses_terms_set source original (a o : obj) :
  getFieldOpt (read source "traits") "senses" = VStr original →
  senses_shape source = Some (a, o) →
  ∃ source',
    migrateSensesData source = Some source'
    ∧ ∀ (pre : list string) (t : string) (post : list string) name digits,
        terms_of original = (pre ++ t :: post)%list →
        JSString.match_pattern (JSString.trim t) = Some (name, digits) →
        in_senses (JSString.toLowerCase name) = true →
        let type := JSString.toLowerCase name in
        let n := VNum (toNearest_half (StringToNumber digits)) in
        (∀ s (a' o' : obj) (b : bool),
           senses_term (<["attributes" := VObj (<["senses" := VObj o']> a')]> s, b) t
           = Some (<["attributes" :=
                       VObj (<["senses" := VObj (<[type := n]> o')]> a')]> s, true))
        ∧ ((∀ t' name' digits',
              t' ∈ post →
              JSString.match_pattern (JSString.trim t') = Some (name', digits') →
              in_senses (JSString.toLowerCase name') = true →
              JSString.toLowerCase name' ≠ type) →
           sense source' type = n).
Proof.
  intros Ht Hshape. eexists. split.
  { by apply migrateSensesData_spec. }
  intros pre t post name digits Hterms Hm Hk type n.
  pose proof (term_write_Some t name digits Hm Hk) as Hw. split.
  - intros s a' o' b. rewrite senses_term_insert. cbn [omap list_omap].
    rewrite Hw. simpl. by rewrite orb_true_r.
  - intros Hpost. rewrite sense_insert.
    assert (omap term_write (terms_of original)
            = (omap term_write pre ++ (type, n) :: omap term_write post)%list) as Hws.
    { rewrite Hterms, omap_app. cbn [omap list_omap]. by rewrite Hw. }
    rewrite senses_writes_matched by (rewrite Hws; by destruct (omap term_write pre)).
    rewrite Hws, apply_writes_app, apply_writes_cons.
    unfold read. rewrite apply_writes_lookup_other.
    + simpl. by rewrite lookup_insert_eq.
    + clear Hws Hterms. induction post as [|t' post IH]; [done|].
      assert (Forall (λ w : string * value, w.1 ≠ type) (omap term_write post)) as IH'.
      { apply IH. intros t'' ? ? ?. apply Hpost. set_solver. }
      cbn [omap list_omap]. destruct (term_write t') as [w|] eqn:Hw'; [|done].
      constructor; [|done].
      apply term_write_inv in Hw' as (name' & digits' & Hm' & Hk' & ->).
      simpl. eapply Hpost; [|done..]. set_solver.
Qed.

End claims_creature.

Section idempotence.
Context {E : Engine} {C : Config}.

(** C1.  Each migration is idempotent: when it completes on a source, it
    leaves its own result as it is. *)
Theorem migrations_idempotent (source source' : obj) :
  toString_zero →
  (ActivatedEffectTemplate.migrateData source = Some source' →
   ActivatedEffectTemplate.migrateData source' = Some source')
  ∧ (ActivatedEffectTemplate.migrateFormulaFields source = Some source' →
     ActivatedEffectTemplate.migrateFormulaFields source' = Some source')
  ∧ (ActivatedEffectTemplate.migrateRanges source = Some source' →
     ActivatedEffectTemplate.migrateRanges source' = Some source')
  ∧ (ActivatedEffectTemplate.migrateTargets source = Some source' →
     ActivatedEffectTemplate.migrateTargets source' = Some source')
  ∧ (ActivatedEffectTemplate.migrateUses source = Some source' →
     ActivatedEffectTemplate.migrateUses source' = Some source')
  ∧ (ActivatedEffectTemplate.migrateConsume source = Some source' →
     ActivatedEffectTemplate.migrateConsume source' = Some source')
  ∧ (CreatureTemplate.migrateSensesData source = Some source' →
     CreatureTemplate.migrateSensesData source' = Some source').
Proof.
  intros Hz. repeat split.
  - by apply migrateData_idem.
  - by apply migrateFormulaFields_idem.
  - apply migrateRanges_idem.
  - apply migrateTargets_idem.
  - apply migrateUses_idem.
  - apply migrateConsume_idem.
  - apply migrateSensesData_idem.
Qed.
End idempotence.

#[local] Set Warnings "-clear-no-such-hyp".

(** ** Where the migrations complete, and what they keep *)

Section completion.
Import ActivatedEffectTemplate.
Context {E : Engine}.
Implicit Types (o : obj) (k : string) (v x : value).

Lemma derefs_iff (ov : option value) :
  derefs ov = true ↔ ov ≠ Some VUndefined ∧ ov ≠ Some VNull.
Proof. destruct ov as [[]|]; simpl; naive_solver. Qed.

Lemma writable_iff (ov : option value) :
  writable ov = true ↔ ov = None ∨ ∃ o, ov = Some (VObj o).
Proof. destruct ov as [[]|]; simpl; naive_solver. Qed.

(** X1.  [migrateData] completes exactly when [range] and [consume] are not
    [undefined] or [null] under a key that is present, and [uses] is
    absent or an object. *)
Theorem migrateData_completes (source : obj) :
  is_Some (migrateData source) ↔
    (source !! "range" ≠ Some VUndefined ∧ source !! "range" ≠ Some VNull)
    ∧ (source !! "uses" = None ∨ ∃ o, source !! "uses" = Some (VObj o))
    ∧ (source !! "consume" ≠ Some VUndefined ∧ source !! "consume" ≠ Some VNull).
Proof.
  rewrite migrateData_total. unfold well_shaped.
  rewrite !andb_true_iff, !derefs_iff, writable_iff. naive_solver.
Qed.

(** X2.  [migrateFormulaFields] and [migrateTargets] complete on every source;
    [migrateRanges] and [migrateConsume] throw exactly when their key holds
    [undefined] or [null], and [migrateUses] exactly when [uses] is present
    and not an object. *)
Theorem steps_complete (source : obj) :
  is_Some (migrateFormulaFields source)
  ∧ is_Some (migrateTargets source)
  ∧ (migrateRanges source = None ↔
       source !! "range" = Some VUndefined ∨ source !! "range" = Some VNull)
  ∧ (migrateUses source = None ↔
       ∃ v, source !! "uses" = Some v ∧ ∀ o, v ≠ VObj o)
  ∧ (migrateConsume source = None ↔
       source !! "consume" = Some VUndefined ∨ source !! "consume" = Some VNull).
Proof.
  rewrite migrateFormulaFields_spec, migrateTargets_spec, migrateRanges_spec,
    migrateUses_spec, migrateConsume_spec.
  split; [done|]. split; [done|]. split; [|split].
  - destruct (source !! "range") as [[]|]; simpl; naive_solver.
  - destruct (source !! "uses") as [[]|]; simpl; naive_solver.
  - destruct (source !! "consume") as [[]|]; simpl; naive_solver.
Qed.


(** Reading a property of one of the five objects after [migrateData]. *)
Lemma read_rewrite_field_gen (h : value → option value) k k' o :
  read (rewrite_field h k o) k'
  = if decide (k = k') then default (read o k) (h (read o k)) else read o k'.
Proof.
  case_decide as Hk; [subst; apply read_rewrite_field|by apply read_rewrite_field_ne].
Qed.

Lemma after_migrateData (source source' : obj) k1 k2 :
  migrateData source = Some source' →
  getFieldOpt (read source' k1) k2
  = match field_migration k1 (read source k1) with
    | VObj o => read o k2
    | _ => VUndefined
    end.
Proof.
  intros [_ ->]%migrateData_Some. by rewrite read_migrated, getFieldOpt_read.
Qed.

(** Reduce [after k] under the property [key] to a read of the object
    that the property holds, [Hsrc : read source key = VObj o]. *)
Ltac after_object Hrun Hsrc o :=
  rewrite ?(after_migrateData _ _ _ _ Hrun);
  rewrite ?field_migration_target, ?field_migration_uses, ?field_migration_consume,
    ?field_migration_range, ?field_migration_duration;
  rewrite ?Hsrc; unfold lift;
  change (getFieldOpt (VObj o)) with (read o) in *.

Ltac reads := repeat (rewrite read_rewrite_field_gen; simpl).

Ltac other_value Hrun Hsrc :=
  repeat split; intros;
  rewrite ?(after_migrateData _ _ _ _ Hrun);
  rewrite ?field_migration_target, ?field_migration_uses, ?field_migration_consume,
    ?field_migration_range, ?field_migration_duration;
  rewrite ?Hsrc; done.

(** X3.  After [migrateData], a blank [target.value] is [null] and a null
    [target.units] or [target.type] is the empty string; anything else in
    [target] is as it was. *)
Theorem targets_coerced (source source' : obj) :
  migrateData source = Some source' →
  let before k := getFieldOpt (read source "target") k in
  let after k := getFieldOpt (read source' "target") k in
  (before "value" = VStr "" → after "value" = VNull)
  ∧ (before "value" ≠ VStr "" → after "value" = before "value")
  ∧ (∀ k, k = "units" ∨ k = "type" →
       (before k = VNull → after k = VStr "")
       ∧ (before k ≠ VNull → after k = before k))
  ∧ (∀ k, k ∉ ["value"; "units"; "type"] → after k = before k).
Proof.
  intros Hrun. cbv beta zeta.
  destruct (read source "target") as [| |?|?|?|o] eqn:Hsrc;
    try by other_value Hrun Hsrc.
  repeat split; [intros Hb..|intros k Hk]; after_object Hrun Hsrc o;
    unfold target_obj, compose; rewrite !read_rewrite_field_gen; simpl.
  - by rewrite Hb.
  - unfold blank_to_null. destruct (read o "value") as [| |?|?|s|?]; try done.
    destruct (decide (s = "")); [by subst|done].
  - destruct H as [->| ->]; simpl; by rewrite Hb.
  - destruct H as [->| ->]; simpl; by destruct (read o _).
  - repeat (case_decide; [subst; exfalso; apply Hk; set_solver|]). done.
Qed.


Lemma numeric_string_none (s : string) :
  s ≠ "" → Number_isNumeric (Some s) = false → numeric_string (VStr s) = None.
Proof. intros Hs Hn. unfold numeric_string. rewrite Hn. by destruct (decide (s = "")). Qed.

Lemma numeric_string_other v : (∀ s, v ≠ VStr s) → numeric_string v = None.
Proof. intros H. destruct v; try done. by destruct (H s). Qed.

(** X4.  After [migrateData], [uses] and [consume] keep everything that is not
    a legacy shape: a string [value] or [amount] that is neither blank nor
    numeric, a [value] or [amount] that is not a string, a [recovery] that
    is defined, a [type] that is not null, and every other property. *)
Theorem uses_consume_kept (source source' : obj) :
  migrateData source = Some source' →
  let before k1 k2 := getFieldOpt (read source k1) k2 in
  let after k1 k2 := getFieldOpt (read source' k1) k2 in
  (∀ k1 k2, (k1 = "uses" ∧ k2 = "value") ∨ (k1 = "consume" ∧ k2 = "amount") →
     (∀ s, before k1 k2 = VStr s → s ≠ "" → Number_isNumeric (Some s) = false →
           after k1 k2 = VStr s)
     ∧ ((∀ s, before k1 k2 ≠ VStr s) → after k1 k2 = before k1 k2))
  ∧ (before "uses" "recovery" ≠ VUndefined →
     after "uses" "recovery" = before "uses" "recovery")
  ∧ (before "consume" "type" ≠ VNull →
     after "consume" "type" = before "consume" "type")
  ∧ (∀ k, k ∉ ["value"; "max"; "recovery"] → after "uses" k = before "uses" k)
  ∧ (∀ k, k ∉ ["type"; "amount"] → after "consume" k = before "consume" k).
Proof.
  intros Hrun. cbv beta zeta. repeat split.
  - intros s Hb Hs Hn. destruct H as [[-> ->]|[-> ->]].
    + destruct (read source "uses") as [| |?|?|?|o] eqn:Hsrc; try done.
      after_object Hrun Hsrc o. unfold uses_obj, compose.
      reads.
      by rewrite Hb, numeric_string_none.
    + destruct (read source "consume") as [| |?|?|?|o] eqn:Hsrc; try done.
      after_object Hrun Hsrc o. unfold consume_obj.
      reads.
      by rewrite Hb, numeric_string_none.
  - intros Hb. destruct H as [[-> ->]|[-> ->]].
    + destruct (read source "uses") as [| |?|?|?|o] eqn:Hsrc;
        try by other_value Hrun Hsrc.
      after_object Hrun Hsrc o. unfold uses_obj, compose.
      reads.
      by rewrite numeric_string_other.
    + destruct (read source "consume") as [| |?|?|?|o] eqn:Hsrc;
        try by other_value Hrun Hsrc.
      after_object Hrun Hsrc o. unfold consume_obj.
      reads.
      by rewrite numeric_string_other.
  - intros Hb. destruct (read source "uses") as [| |?|?|?|o] eqn:Hsrc;
      try by other_value Hrun Hsrc.
    after_object Hrun Hsrc o. unfold uses_obj, compose.
    reads.
    by destruct (read o "recovery").
  - intros Hb. destruct (read source "consume") as [| |?|?|?|o] eqn:Hsrc;
      try by other_value Hrun Hsrc.
    after_object Hrun Hsrc o. unfold consume_obj.
    reads.
    by destruct (read o "type").
  - intros k Hk. destruct (read source "uses") as [| |?|?|?|o] eqn:Hsrc;
      try by other_value Hrun Hsrc.
    after_object Hrun Hsrc o. unfold uses_obj, compose.
    rewrite !read_rewrite_field_gen.
    repeat (case_decide; [subst; exfalso; apply Hk; set_solver|]). done.
  - intros k Hk. destruct (read source "consume") as [| |?|?|?|o] eqn:Hsrc;
      try by other_value Hrun Hsrc.
    after_object Hrun Hsrc o. unfold consume_obj.
    rewrite !read_rewrite_field_gen.
    repeat (case_decide; [subst; exfalso; apply Hk; set_solver|]). done.
Qed.


(** X5.  After [migrateData], a [uses.max] or [duration.value] that is not 0,
    ["0"], [null] or a number (a formula, say) is as it was, and so is
    every other property of [duration]. *)
Theorem formula_fields_kept (source source' : obj) :
  migrateData source = Some source' →
  let before k1 k2 := getFieldOpt (read source k1) k2 in
  let after k1 k2 := getFieldOpt (read source' k1) k2 in
  (∀ k1 k2, (k1 = "uses" ∧ k2 = "max") ∨ (k1 = "duration" ∧ k2 = "value") →
     before k1 k2 ≠ VNull → before k1 k2 ≠ VStr "0" →
     (∀ n, before k1 k2 ≠ VNum n) →
     after k1 k2 = before k1 k2)
  ∧ (∀ k, k ≠ "value" → after "duration" k = before "duration" k).
Proof.
  intros Hrun. cbv beta zeta. split.
  - intros k1 k2 Hk Hnull Hzero Hnum.
    assert (∀ o, read o k2 ≠ VNull → read o k2 ≠ VStr "0" →
                 (∀ n, read o k2 ≠ VNum n) →
                 formula_string (read o k2) = None) as Hnone.
    { intros o H1 H2 H3. unfold formula_string, includes_zero_null.
      destruct (read o k2) as [| |?|n|s|?]; try done.
      - by destruct (H3 n).
      - case_bool_decide; [by subst|done]. }
    destruct Hk as [[-> ->]|[-> ->]].
    + destruct (read source "uses") as [| |?|?|?|o] eqn:Hsrc;
        try by other_value Hrun Hsrc.
      after_object Hrun Hsrc o. unfold uses_obj, compose. reads.
      by rewrite Hnone.
    + destruct (read source "duration") as [| |?|?|?|o] eqn:Hsrc;
        try by other_value Hrun Hsrc.
      after_object Hrun Hsrc o. reads. by rewrite Hnone.
  - intros k Hk. destruct (read source "duration") as [| |?|?|?|o] eqn:Hsrc;
      try by other_value Hrun Hsrc.
    after_object Hrun Hsrc o. rewrite read_rewrite_field_gen. by case_decide.
Qed.

(** X6.  [migrateData] neither adds nor removes a property of the source, and
    a property that does not hold an object is as it was. *)
Theorem migrateData_keeps_shape (source source' : obj) :
  migrateData source = Some source' →
  dom source' = dom source
  ∧ (∀ k v, source !! k = Some v → (∀ o, v ≠ VObj o) → source' !! k = Some v)
  ∧ (∀ k o, source !! k = Some (VObj o) → ∃ o', source' !! k = Some (VObj o')).
Proof.
  intros [_ ->]%migrateData_Some. repeat split.
  - apply set_eq. intros k. rewrite !elem_of_dom, lookup_migrated.
    by rewrite fmap_is_Some.
  - intros k v Hk Hv. rewrite lookup_migrated, Hk. simpl. f_equal.
    destruct (field_migration_lift k) as [g ->]. destruct v; try done.
    by destruct (Hv o).
  - intros k o Hk. rewrite lookup_migrated, Hk. simpl.
    destruct (field_migration_lift k) as [g ->]. by eexists.
Qed.


(** The object that [migrateRanges] leaves, read property by property. *)
Lemma read_range_obj_other o k :
  k ∉ ["units"; "long"; "value"] → read (range_obj o) k = read o k.
Proof.
  intros Hk. unfold range_obj. rewrite read_range_value_obj by set_solver.
  rewrite !read_rewrite_field_gen.
  repeat (case_decide; [subst; exfalso; apply Hk; set_solver|]). done.
Qed.

Lemma read_range_obj_units o :
  read (range_obj o) "units"
  = default (read o "units") (null_to_blank (read o "units")).
Proof. unfold range_obj. rewrite read_range_value_obj by done. by reads. Qed.

Lemma read_range_obj_parts o (v a : string) (rest : list string) :
  read o "value" = VStr v → v ≠ "" → JSString.split "/" v = (a, rest) →
  read (range_obj o) "value"
  = (if Number_isNumeric (Some a) then VNum (StringToNumber a) else VStr v)
  ∧ read (range_obj o) "long"
    = if Number_isNumeric (head rest)
      then from_option (λ l, VNum (StringToNumber l)) VUndefined (head rest)
      else default (read o "long") (numeric_string (read o "long")).
Proof.
  intros Hv Hne Hsplit. unfold range_obj.
  set (o' := rewrite_field numeric_string "long" (rewrite_field null_to_blank "units" o)).
  assert (read o' "value" = VStr v) as Hv' by (unfold o'; by reads).
  assert (read o' "long" = default (read o "long") (numeric_string (read o "long")))
    as Hl' by (unfold o'; by reads).
  rewrite (range_value_obj_eq o' v a rest) by done. cbv zeta.
  destruct (Number_isNumeric (Some a)), (head rest) as [l|]; simpl;
    try destruct (Number_isNumeric (Some l));
    by rewrite ?read_insert, ?(read_insert_ne _ "long" "value"),
         ?(read_insert_ne _ "value" "long"), ?read_insert by done.
Qed.

Lemma read_range_obj_long o :
  (∀ v : string, read o "value" = VStr v → v ≠ "" →
        Number_isNumeric (head (JSString.split "/" v).2) = false) →
  read (range_obj o) "long"
  = default (read o "long") (numeric_string (read o "long")).
Proof.
  intros Hno. destruct (read o "value") as [| |?|?|v|?] eqn:Hv.
  5: { destruct (decide (v = "")) as [->|Hne].
       - unfold range_obj. rewrite range_value_obj_blank by by reads.
         rewrite read_insert_ne by done. by reads.
       - destruct (JSString.split "/" v) as [a rest] eqn:Hsplit.
         destruct (read_range_obj_parts o v a rest Hv Hne Hsplit) as [_ ->].
         specialize (Hno v eq_refl Hne). rewrite Hsplit in Hno. simpl in Hno.
         by rewrite Hno. }
  all: unfold range_obj; rewrite range_value_obj_other by (by reads; rewrite Hv);
    by reads.
Qed.

(** X7.  After [migrateData], when [range.value] does not give a numeric second
    part, a blank [range.long] is [null], a numeric string is its number,
    and anything else is as it was. *)
Theorem range_long_coerced (source source' : obj) :
  migrateData source = Some source' →
  let before k := getFieldOpt (read source "range") k in
  let after k := getFieldOpt (read source' "range") k in
  (∀ v : string, before "value" = VStr v → v ≠ "" →
        Number_isNumeric (head (JSString.split "/" v).2) = false) →
  (before "long" = VStr "" → after "long" = VNull)
  ∧ (∀ l, before "long" = VStr l → Number_isNumeric (Some l) = true →
          after "long" = VNum (StringToNumber l))
  ∧ (∀ l, before "long" = VStr l → l ≠ "" → Number_isNumeric (Some l) = false →
          after "long" = VStr l)
  ∧ ((∀ l, before "long" ≠ VStr l) → after "long" = before "long").
Proof.
  intros Hrun. cbv beta zeta. intros Hno.
  destruct (read source "range") as [| |?|?|?|o] eqn:Hsrc;
    try by other_value Hrun Hsrc.
  change (getFieldOpt (VObj o)) with (read o) in *.
  repeat split; intros; after_object Hrun Hsrc o; rewrite read_range_obj_long by done.
  - by rewrite H.
  - rewrite H. by rewrite numeric_string_of by (by try apply isNumeric_nonblank).
  - rewrite H. by rewrite numeric_string_none.
  - by rewrite numeric_string_other.
Qed.

(** X8.  After [migrateData], [range] keeps a [units] that is not null, a
    [value] that is not a string, and every property other than [units],
    [long] and [value]. *)
Theorem range_kept (source source' : obj) :
  migrateData source = Some source' →
  let before k := getFieldOpt (read source "range") k in
  let after k := getFieldOpt (read source' "range") k in
  (before "units" ≠ VNull → after "units" = before "units")
  ∧ ((∀ v : string, before "value" ≠ VStr v) → after "value" = before "value")
  ∧ (∀ k, k ∉ ["units"; "long"; "value"] → after k = before k).
Proof.
  intros Hrun. cbv beta zeta.
  destruct (read source "range") as [| |?|?|?|o] eqn:Hsrc;
    try by other_value Hrun Hsrc.
  change (getFieldOpt (VObj o)) with (read o) in *.
  repeat split; intros; after_object Hrun Hsrc o.
  - rewrite read_range_obj_units. by destruct (read o "units").
  - unfold range_obj. rewrite range_value_obj_other.
    + by reads.
    + reads. destruct (read o "value") as [| |?|?|v|?]; try done. by destruct (H v).
  - by apply read_range_obj_other.
Qed.


(** X9.  After [migrateData], a [range.value] that is one numeric string is
    its number, and [range.long] is not overwritten: when it is not a
    string it is as it was. *)
Theorem range_single_number (source source' : obj) (A : string) :
  numeric_no_slash →
  migrateData source = Some source' →
  let before k := getFieldOpt (read source "range") k in
  let after k := getFieldOpt (read source' "range") k in
  before "value" = VStr A → Number_isNumeric (Some A) = true →
  after "value" = VNum (StringToNumber A)
  ∧ ((∀ l : string, before "long" ≠ VStr l) → after "long" = before "long").
Proof.
  intros Hlaw Hrun. cbv beta zeta.
  destruct (read source "range") as [| |?|?|?|o] eqn:Hsrc; try done.
  change (getFieldOpt (VObj o)) with (read o) in *. intros Hv HA.
  destruct (read_range_obj_parts o A A []) as [Hvalue Hlong]; try done.
  { by apply isNumeric_nonblank. }
  { apply split_free. by apply isNumeric_free. }
  split; [|intros Hl]; after_object Hrun Hsrc o.
  - by rewrite Hvalue, HA.
  - rewrite Hlong. simpl. by rewrite numeric_string_other.
Qed.

(** X10.  After [migrateData], of a [range.value] with more than two parts,
    ["A/B/C"] with numeric [A] and [B], only the first two are used. *)
Theorem range_extra_parts (source source' : obj) (A B C : string) :
  numeric_no_slash →
  migrateData source = Some source' →
  let before k := getFieldOpt (read source "range") k in
  let after k := getFieldOpt (read source' "range") k in
  before "value" = VStr (A ++ "/" ++ B ++ "/" ++ C) →
  Number_isNumeric (Some A) = true → Number_isNumeric (Some B) = true →
  after "value" = VNum (StringToNumber A) ∧ after "long" = VNum (StringToNumber B).
Proof.
  intros Hlaw Hrun. cbv beta zeta.
  destruct (read source "range") as [| |?|?|?|o] eqn:Hsrc; try done.
  change (getFieldOpt (VObj o)) with (read o) in *. intros Hv HA HB.
  change (A +:+ "/" +:+ B +:+ "/" +:+ C) with (A +:+ String "/" (B +:+ String "/" C)) in Hv.
  destruct (read_range_obj_parts o _ A
              ((JSString.split "/" (B +:+ String "/" C)).1
               :: (JSString.split "/" (B +:+ String "/" C)).2) Hv)
    as [Hvalue Hlong].
  { apply isNumeric_nonblank in HA. by destruct A. }
  { apply split_app_free. by apply isNumeric_free. }
  rewrite (split_app_free "/" B C) in Hlong by (by apply isNumeric_free).
  simpl in Hlong. rewrite HB in Hlong.
  split; after_object Hrun Hsrc o; [by rewrite Hvalue, HA|done].
Qed.

(** X11.  After [migrateData], a [range.value] ["A/B"] whose first part is not
    numeric stays as it is, and a numeric second part still goes to
    [range.long]. *)
Theorem range_first_part_kept (source source' : obj) (A B : string) :
  numeric_no_slash →
  migrateData source = Some source' →
  let before k := getFieldOpt (read source "range") k in
  let after k := getFieldOpt (read source' "range") k in
  before "value" = VStr (A ++ "/" ++ B) →
  JSString.free_of "/" A →
  Number_isNumeric (Some A) = false → Number_isNumeric (Some B) = true →
  after "value" = VStr (A ++ "/" ++ B) ∧ after "long" = VNum (StringToNumber B).
Proof.
  intros Hlaw Hrun. cbv beta zeta.
  destruct (read source "range") as [| |?|?|?|o] eqn:Hsrc; try done.
  change (getFieldOpt (VObj o)) with (read o) in *. intros Hv Hfree HA HB.
  change (A +:+ "/" +:+ B) with (A +:+ String "/" B) in *.
  destruct (read_range_obj_parts o _ A
              ((JSString.split "/" B).1 :: (JSString.split "/" B).2) Hv)
    as [Hvalue Hlong].
  { by destruct A. }
  { by apply split_app_free. }
  rewrite (split_free "/" B) in Hlong by (by apply isNumeric_free).
  simpl in Hlong. rewrite HB in Hlong.
  split; after_object Hrun Hsrc o; [by rewrite Hvalue, HA|done].
Qed.


Lemma numeric_string_settled v :
  let v' := default v (numeric_string v) in
  v' ≠ VStr "" ∧ ∀ s, v' = VStr s → Number_isNumeric (Some s) = false.
Proof.
  unfold numeric_string. destruct v as [| |?|?|l|?]; simpl; try done.
  destruct (decide (l = "")) as [->|Hl]; simpl; [done|].
  destruct (Number_isNumeric (Some l)) eqn:Hn; simpl; [done|].
  split; [by intros [= ->]|]. by intros s [= <-].
Qed.

Lemma formula_string_not_null v : default v (formula_string v) ≠ VNull.
Proof.
  unfold formula_string, includes_zero_null.
  destruct v as [| |?|n|s|?]; simpl; try done.
  - by destruct (num_is_zero n).
  - by case_bool_decide.
Qed.

Lemma read_range_obj_long_cases o :
  (∃ n, read (range_obj o) "long" = VNum n)
  ∨ read (range_obj o) "long" = default (read o "long") (numeric_string (read o "long")).
Proof.
  destruct (read o "value") as [| |?|?|v|?] eqn:Hv;
    try (right; apply read_range_obj_long; intros ?; by rewrite Hv).
  destruct (decide (v = "")) as [->|Hne].
  { right. apply read_range_obj_long. intros v. rewrite Hv. by intros [= <-]. }
  destruct (JSString.split "/" v) as [a rest] eqn:Hsplit.
  destruct (read_range_obj_parts o v a rest Hv Hne Hsplit) as [_ ->].
  destruct (head rest) as [l|]; simpl; [|by right].
  destruct (Number_isNumeric (Some l)); [left; by eexists|by right].
Qed.

Lemma read_range_obj_value_cases o :
  read (range_obj o) "value" ≠ VStr "".
Proof.
  destruct (read o "value") as [| |?|?|v|?] eqn:Hv.
  5: { destruct (decide (v = "")) as [->|Hne].
       - unfold range_obj. rewrite range_value_obj_blank by by reads.
         by rewrite read_insert.
       - destruct (JSString.split "/" v) as [a rest] eqn:Hsplit.
         destruct (read_range_obj_parts o v a rest Hv Hne Hsplit) as [-> _].
         destruct (Number_isNumeric (Some a)); [done|]. by intros [= ->]. }
  all: unfold range_obj; rewrite range_value_obj_other by (by reads; rewrite Hv);
    reads; by rewrite Hv.
Qed.

(** X12.  What [migrateData] leaves is in the shape of the schema: no blank
    string where a number is stored, no numeric string in [range.long],
    [uses.value] and [consume.amount], no [null] where a string is stored,
    and a [uses.recovery] in every [uses]. *)
Theorem migrateData_canonical (source source' : obj) :
  migrateData source = Some source' →
  let after k1 k2 := getFieldOpt (read source' k1) k2 in
  (∀ p, p ∈ [("target", "value"); ("range", "value"); ("range", "long");
             ("uses", "value"); ("consume", "amount")] →
        after p.1 p.2 ≠ VStr "")
  ∧ (∀ p s, p ∈ [("range", "long"); ("uses", "value"); ("consume", "amount")] →
        after p.1 p.2 = VStr s → Number_isNumeric (Some s) = false)
  ∧ (∀ p, p ∈ [("target", "units"); ("target", "type"); ("range", "units");
               ("consume", "type"); ("uses", "max"); ("duration", "value")] →
        after p.1 p.2 ≠ VNull)
  ∧ (has "uses" source = true → after "uses" "recovery" ≠ VUndefined).
Proof.
  intros Hrun. cbv beta zeta.
  assert (∀ k1 k2, getFieldOpt (read source' k1) k2
            = match field_migration k1 (read source k1) with
              | VObj o => read o k2
              | _ => VUndefined
              end) as Hafter
    by (intros; by apply after_migrateData).
  assert (∀ k1 (g : obj → obj) k2 (P : value → Prop),
            P VUndefined → (∀ o, P (read (g o) k2)) →
            P (match lift g (read source k1) with
               | VObj o => read o k2
               | _ => VUndefined
               end)) as Hcases.
  { intros k1 g k2 P H0 Hg. destruct (read source k1); simpl; auto. }
  repeat split.
  - intros p Hp. rewrite Hafter.
    repeat (apply elem_of_cons in Hp as [->|Hp]); [..|by apply elem_of_nil in Hp];
      cbn [fst snd].
    + rewrite field_migration_target. apply Hcases; [done|]. intros o.
      unfold target_obj. reads. unfold blank_to_null.
      destruct (read o "value") as [| |?|?|s|?]; try done.
      destruct (decide (s = "")); simpl; [done|]. by intros [= ->].
    + rewrite field_migration_range. apply Hcases; [done|]. intros o.
      apply read_range_obj_value_cases.
    + rewrite field_migration_range. apply Hcases; [done|]. intros o.
      destruct (read_range_obj_long_cases o) as [[n ->]| ->]; [done|].
      apply numeric_string_settled.
    + rewrite field_migration_uses. apply Hcases; [done|]. intros o.
      unfold uses_obj, compose. reads. apply numeric_string_settled.
    + rewrite field_migration_consume. apply Hcases; [done|]. intros o.
      unfold consume_obj. reads. apply numeric_string_settled.
  - intros p s Hp. rewrite Hafter.
    repeat (apply elem_of_cons in Hp as [->|Hp]); [..|by apply elem_of_nil in Hp];
      cbn [fst snd].
    + rewrite field_migration_range. apply Hcases; [done|]. intros o.
      destruct (read_range_obj_long_cases o) as [[n ->]| ->]; [done|].
      apply numeric_string_settled.
    + rewrite field_migration_uses. apply Hcases; [done|]. intros o.
      unfold uses_obj, compose. reads. apply numeric_string_settled.
    + rewrite field_migration_consume. apply Hcases; [done|]. intros o.
      unfold consume_obj. reads. apply numeric_string_settled.
  - intros p Hp. rewrite Hafter.
    repeat (apply elem_of_cons in Hp as [->|Hp]); [..|by apply elem_of_nil in Hp];
      cbn [fst snd].
    + rewrite field_migration_target. apply Hcases; [done|]. intros o.
      unfold target_obj. reads. by destruct (read o "units").
    + rewrite field_migration_target. apply Hcases; [done|]. intros o.
      unfold target_obj. reads. by destruct (read o "type").
    + rewrite field_migration_range. apply Hcases; [done|]. intros o.
      rewrite read_range_obj_units. by destruct (read o "units").
    + rewrite field_migration_consume. apply Hcases; [done|]. intros o.
      unfold consume_obj. reads. by destruct (read o "type").
    + rewrite field_migration_uses. apply Hcases; [done|]. intros o.
      unfold uses_obj, compose. reads.
      apply formula_string_not_null.
    + rewrite field_migration_duration. apply Hcases; [done|]. intros o.
      reads. apply formula_string_not_null.
  - intros Hhas. rewrite Hafter, field_migration_uses.
    apply migrateData_Some in Hrun as [Hshape _]. unfold well_shaped in Hshape.
    unfold has in Hhas. apply bool_decide_eq_true in Hhas as [u Hu].
    rewrite Hu in Hshape. rewrite (read_Some _ _ _ Hu).
    destruct u as [| |?|?|?|o]; try (by rewrite ?andb_false_r in Hshape).
    simpl. unfold uses_obj, compose. reads.
    by destruct (read _ "recovery").
Qed.

End completion.

(** ** Documents in the current shape *)

Section current.
Import ActivatedEffectTemplate.
Context {E : Engine}.
Implicit Types (o : obj) (k : string) (v x : value).

Lemma formula_string_None v :
  v ≠ VNull → v ≠ VStr "0" → (∀ n, v ≠ VNum n) → formula_string v = None.
Proof.
  intros H1 H2 H3. unfold formula_string, includes_zero_null.
  destruct v as [| |?|n|s|?]; try done.
  - by destruct (H3 n).
  - case_bool_decide; [by subst|done].
Qed.

Lemma numeric_string_None v :
  v ≠ VStr "" → (∀ s, v = VStr s → Number_isNumeric (Some s) = false) →
  numeric_string v = None.
Proof.
  intros H1 H2. unfold numeric_string. destruct v as [| |?|?|s|?]; try done.
  destruct (decide (s = "")) as [->|_]; [done|]. by rewrite (H2 s).
Qed.

Lemma range_value_obj_fixed o :
  (∀ v : string, read o "value" = VStr v →
     v ≠ ""
     ∧ Number_isNumeric (Some (JSString.split "/" v).1) = false
     ∧ Number_isNumeric (head (JSString.split "/" v).2) = false) →
  range_value_obj o = o.
Proof.
  intros H. unfold range_value_obj.
  destruct (read o "value") as [| |?|?|v|?]; try done.
  destruct (H v eq_refl) as (Hne & Ha & Hl).
  destruct (decide (v = "")); [done|].
  destruct (JSString.split "/" v) as [a rest]. simpl in *. rewrite Ha.
  destruct (head rest) as [l|]; [|done]. by rewrite Hl.
Qed.

(** X13.  [migrateData] leaves a source on which it completes as it is when no
    property is in a legacy shape: no blank or numeric string where a number is stored, no
    [null] where a string is stored, no 0, ["0"] or number as a formula, a
    [range.value] that has no numeric part, and a [recovery] in [uses]. *)
Theorem migrateData_current_untouched (source : obj) :
  is_Some (migrateData source) →
  let field k1 k2 := getFieldOpt (read source k1) k2 in
  (∀ p, p ∈ [("target", "value"); ("range", "long"); ("uses", "value");
             ("consume", "amount")] →
        field p.1 p.2 ≠ VStr "") →
  (∀ p s, p ∈ [("range", "long"); ("uses", "value"); ("consume", "amount")] →
        field p.1 p.2 = VStr s → Number_isNumeric (Some s) = false) →
  (∀ p, p ∈ [("target", "units"); ("target", "type"); ("range", "units");
             ("consume", "type"); ("uses", "max"); ("duration", "value")] →
        field p.1 p.2 ≠ VNull) →
  (∀ p, p ∈ [("uses", "max"); ("duration", "value")] →
        field p.1 p.2 ≠ VStr "0" ∧ ∀ n, field p.1 p.2 ≠ VNum n) →
  (∀ v : string, field "range" "value" = VStr v →
     v ≠ ""
     ∧ Number_isNumeric (Some (JSString.split "/" v).1) = false
     ∧ Number_isNumeric (head (JSString.split "/" v).2) = false) →
  (has "uses" source = true → field "uses" "recovery" ≠ VUndefined) →
  migrateData source = Some source.
Proof.
  intros [source' Hrun]. cbv beta zeta.
  intros Hblank Hnum Hnull Hformula Hrange Hrecovery.
  rewrite Hrun. f_equal. apply migrateData_Some in Hrun as [_ ->].
  apply map_eq. intros k. rewrite lookup_migrated.
  destruct (source !! k) as [v|] eqn:Hk; [|done]. simpl. f_equal.
  pose proof (read_Some _ _ _ Hk) as Hread.
  unfold field_migration.
  repeat case_decide; try subst k; try done;
    destruct v as [| |?|?|?|o]; try done; simpl; f_equal.
  - (* uses *)
    assert (has "uses" source = true) as Hhas
      by (apply bool_decide_eq_true; by rewrite Hk).
    specialize (Hblank ("uses", "value")). specialize (Hnum ("uses", "value")).
    specialize (Hnull ("uses", "max")). specialize (Hformula ("uses", "max")).
    specialize (Hrecovery Hhas).
    cbn [fst snd] in *. rewrite Hread in *.
    change (getFieldOpt (VObj o)) with (read o) in *.
    destruct Hformula as [H0 Hn]; [set_solver|].
    rewrite (rewrite_field_fixed formula_string "max" o)
      by (apply formula_string_None; [apply Hnull; set_solver|done..]).
    unfold uses_obj.
    rewrite (rewrite_field_fixed numeric_string "value" o).
    2: { apply numeric_string_None; [apply Hblank; set_solver|].
         intros s. apply Hnum. set_solver. }
    apply rewrite_field_fixed. by destruct (read o "recovery").
  - (* duration *)
    specialize (Hnull ("duration", "value")).
    specialize (Hformula ("duration", "value")).
    cbn [fst snd] in *. rewrite Hread in *.
    change (getFieldOpt (VObj o)) with (read o) in *.
    destruct Hformula as [H0 Hn]; [set_solver|].
    apply rewrite_field_fixed, formula_string_None; [apply Hnull; set_solver|done..].
  - (* range *)
    specialize (Hblank ("range", "long")). specialize (Hnum ("range", "long")).
    specialize (Hnull ("range", "units")).
    cbn [fst snd] in *. rewrite Hread in *.
    change (getFieldOpt (VObj o)) with (read o) in *.
    unfold range_obj.
    rewrite (rewrite_field_fixed null_to_blank "units" o).
    2: { assert (read o "units" ≠ VNull) by (apply Hnull; set_solver).
         by destruct (read o "units"). }
    rewrite (rewrite_field_fixed numeric_string "long" o).
    2: { apply numeric_string_None; [apply Hblank; set_solver|].
         intros s. apply Hnum. set_solver. }
    by apply range_value_obj_fixed.
  - (* target *)
    pose proof (Hblank ("target", "value")) as Hb.
    pose proof (Hnull ("target", "units")) as Hu.
    pose proof (Hnull ("target", "type")) as Ht.
    cbn [fst snd] in *. rewrite Hread in *.
    change (getFieldOpt (VObj o)) with (read o) in *.
    unfold target_obj.
    rewrite (rewrite_field_fixed blank_to_null "value" o).
    2: { assert (read o "value" ≠ VStr "") as Hv by (apply Hb; set_solver).
         unfold blank_to_null. destruct (read o "value") as [| |?|?|s|?]; try done.
         destruct (decide (s = "")); [by subst|done]. }
    rewrite (rewrite_field_fixed null_to_blank "units" o).
    2: { assert (read o "units" ≠ VNull) by (apply Hu; set_solver).
         by destruct (read o "units"). }
    apply rewrite_field_fixed.
    assert (read o "type" ≠ VNull) by (apply Ht; set_solver).
    by destruct (read o "type").
  - (* consume *)
    specialize (Hblank ("consume", "amount")). specialize (Hnum ("consume", "amount")).
    specialize (Hnull ("consume", "type")).
    cbn [fst snd] in *. rewrite Hread in *.
    change (getFieldOpt (VObj o)) with (read o) in *.
    unfold consume_obj.
    rewrite (rewrite_field_fixed null_to_blank "type" o).
    2: { assert (read o "type" ≠ VNull) by (apply Hnull; set_solver).
         by destruct (read o "type"). }
    apply rewrite_field_fixed, numeric_string_None; [apply Hblank; set_solver|].
    intros s. apply Hnum. set_solver.
Qed.

End current.

(** ** The order of the steps *)

Section order.
Import ActivatedEffectTemplate.
Context {E : Engine}.
Implicit Types (s o : obj) (k : string) (f g h : obj → option obj).

Lemma commute_refl f : commute f f.
Proof. done. Qed.

















End order.

(** ** More on the senses migration *)

Section more_senses.
Import CreatureTemplate.
Context {E : Engine} {C : Config}.
Implicit Types (s o a : obj) (k : string) (v x : value).
#[local] Arguments senses_loop : simpl never.

Lemma senses_writes_empty : senses_writes "" = [].
Proof. done. Qed.

Lemma senses_writes_nonempty (original : string) :
  original ≠ "" → senses_writes original ≠ [].
Proof.
  intros Hne. unfold senses_writes.
  destruct (omap term_write (terms_of original)); [|done].
  by destruct original.
Qed.

(** Every assignment is to a recognized sense, or it is the one to
    [special]. *)
Lemma senses_writes_keys (original : string) (w : string * value) :
  w ∈ senses_writes original →
  (in_senses w.1 = true ∧ omap term_write (terms_of original) ≠ [])
  ∨ (w = ("special", VStr original) ∧ omap term_write (terms_of original) = []).
Proof.
  unfold senses_writes.
  destruct (omap term_write (terms_of original)) as [|w0 ws] eqn:Hws.
  - destruct (JSString.truthy original); [|by intros ?%elem_of_nil].
    intros ->%list_elem_of_singleton. by right.
  - intros Hw. left. split; [|done]. rewrite <- Hws in Hw.
    apply list_elem_of_omap in Hw as (t & _ & Ht).
    by apply term_write_inv in Ht as (name & digits & _ & Hk & ->).
Qed.

Lemma sense_shape s a o k : senses_shape s = Some (a, o) → sense s k = read o k.
Proof.
  unfold senses_shape, sense.
  destruct (read s "attributes") as [| |?|?|?|a']; simpl; try done.
  - rewrite read_None by done. by intros [= <- <-].
  - rewrite read_None by done. by intros [= <- <-].
  - change (default VUndefined (a' !! "senses")) with (read a' "senses").
    destruct (read a' "senses") as [| |?|?|?|o']; simpl; try done;
      by intros [= <- <-].
Qed.






Lemma migrateSensesData_cases s s' (original : string) :
  getFieldOpt (read s "traits") "senses" = VStr original →
  migrateSensesData s = Some s' →
  s' = s
  ∨ ∃ a o, senses_shape s = Some (a, o)
      ∧ s' = <["attributes" :=
                 VObj (<["senses" := VObj (apply_writes (senses_writes original) o)]> a)]> s.
Proof.
  intros Ht Hrun. destruct (senses_shape s) as [[a o]|] eqn:Hshape.
  - right. exists a, o. split; [done|].
    rewrite (migrateSensesData_spec _ original a o) in Hrun by done. congruence.
  - left. by eapply senses_shape_None.
Qed.



(** X17.  On an empty legacy string the senses migration writes no sense, and
    it leaves the source as it is when [attributes.senses] is an object
    already. *)
Theorem senses_empty_string (source source' : obj) :
  getFieldOpt (read source "traits") "senses" = VStr "" →
  migrateSensesData source = Some source' →
  (∀ k, sense source' k = sense source k)
  ∧ ((∃ o, getFieldOpt (read source "attributes") "senses" = VObj o) →
     source' = source).
Proof.
  intros Ht Hrun.
  destruct (migrateSensesData_cases _ _ _ Ht Hrun) as [->|(a & o & Hshape & ->)];
    [done|].
  rewrite senses_writes_empty. cbn [apply_writes foldl]. split.
  - intros k. by rewrite sense_insert, (sense_shape _ a o).
  - intros [o' Ho']. unfold senses_shape in Hshape.
    destruct (read source "attributes") as [| |?|?|?|a'] eqn:Ha; try done.
    simpl in *.
    change (default VUndefined (a' !! "senses")) with (read a' "senses") in *.
    rewrite Ho' in Hshape. injection Hshape as <- <-.
    by rewrite (read_obj_insert _ _ _ Ho'), (read_obj_insert _ _ _ Ha).
Qed.

(** X18.  When a term is recognized, [attributes.senses.special] is as it was:
    the terms that are not recognized are dropped. *)
Theorem senses_matched_no_special (source source' : obj) (original : string) :
  getFieldOpt (read source "traits") "senses" = VStr original →
  migrateSensesData source = Some source' →
  (∃ t name digits,
     t ∈ terms_of original
     ∧ JSString.match_pattern (JSString.trim t) = Some (name, digits)
     ∧ in_senses (JSString.toLowerCase name) = true) →
  in_senses "special" = false →
  sense source' "special" = sense source "special".
Proof.
  intros Ht Hrun (t & name & digits & Hin & Hm & Hk) Hspecial.
  destruct (migrateSensesData_cases _ _ _ Ht Hrun) as [->|(a & o & Hshape & ->)];
    [done|].
  rewrite sense_insert, (sense_shape _ a o) by done.
  unfold read. rewrite apply_writes_lookup_other; [done|].
  apply list.Forall_forall. intros w Hw Hwk.
  apply senses_writes_keys in Hw as [[Hw _]|[_ Hnone]].
  - congruence.
  - pose proof (term_write_Some t name digits Hm Hk) as Hwrite.
    assert (is_Some (head (omap term_write (terms_of original)))) as [? Hhead].
    { apply head_is_Some. intros Hnil.
      assert ((JSString.toLowerCase name,
               VNum (toNearest_half (StringToNumber digits)))
              ∈ omap term_write (terms_of original)) as Hel
        by (apply list_elem_of_omap; eauto).
      rewrite Hnil in Hel. by apply elem_of_nil in Hel. }
    by rewrite Hnone in Hhead.
Qed.

(** X19.  A sense that no term of the legacy string names is as it was,
    [special] apart. *)
Theorem senses_unnamed_kept (source source' : obj) (original k : string) :
  getFieldOpt (read source "traits") "senses" = VStr original →
  migrateSensesData source = Some source' →
  k ≠ "special" →
  (∀ t name digits,
     t ∈ terms_of original →
     JSString.match_pattern (JSString.trim t) = Some (name, digits) →
     JSString.toLowerCase name ≠ k) →
  sense source' k = sense source k.
Proof.
  intros Ht Hrun Hk Hno.
  destruct (migrateSensesData_cases _ _ _ Ht Hrun) as [->|(a & o & Hshape & ->)];
    [done|].
  rewrite sense_insert, (sense_shape _ a o) by done.
  unfold read. rewrite apply_writes_lookup_other; [done|].
  apply list.Forall_forall. intros w Hw Hwk. unfold senses_writes in Hw.
  destruct (omap term_write (terms_of original)) as [|w0 ws] eqn:Hws.
  - destruct (JSString.truthy original); [|by apply elem_of_nil in Hw].
    apply list_elem_of_singleton in Hw as ->. simpl in Hwk. congruence.
  - rewrite <- Hws in Hw. apply list_elem_of_omap in Hw as (t & Hin & Hw).
    apply term_write_inv in Hw as (name & digits & Hm & _ & ->).
    by apply (Hno t name digits).
Qed.

End more_senses.

(** ** The pattern, from the left *)

Section leftmost.
Import JSString.

Lemma match_here_None (s : string) :
  match_here s = None ↔ ∀ name digits, ¬ pattern_at_head s name digits.
Proof.
  split.
  - intros Hnone name digits Hp%match_here_Some. congruence.
  - intros Hno. destruct (match_here s) as [[name digits]|] eqn:Hm; [|done].
    by apply match_here_Some, Hno in Hm.
Qed.

(** X20.  [s.match(pattern)] gives the groups of the first place in [s] where
    a run of [[A-z]], at most one white-space character and a run of
    digits follow each other; the run of digits is taken whole. *)
Theorem match_pattern_leftmost (s name digits : string) :
  match_pattern s = Some (name, digits) ↔
  ∃ before rest : string,
    s = before ++ rest
    ∧ pattern_at_head rest name digits
    ∧ ∀ b1 b2 n d : string,
        before = b1 ++ b2 → b2 ≠ "" → ¬ pattern_at_head (b2 ++ rest) n d.
Proof.
  rewrite match_pattern_Some. split.
  - intros (before & rest & -> & Hm & Hleft). exists before, rest.
    split; [done|]. split; [by apply match_here_Some|].
    intros b1 b2 n d Hb Hne. by apply match_here_None, (Hleft b1 b2).
  - intros (before & rest & -> & Hm & Hleft). exists before, rest.
    split; [done|]. split; [by apply match_here_Some|].
    intros b1 b2 Hb Hne. apply match_here_None. intros n d. by apply (Hleft b1 b2).
Qed.

End leftmost.

(** ** The initial values of the schema *)

Section initial_values_facts.
Import CreatureTemplate.
Context {E : Engine}.
Implicit Types (o : obj) (k : string) (v x : value).

Lemma append_inj (p l l' : string) : p ++ l = p ++ l' → l = l'.
Proof.
  induction p as [|c p IH]; intros H; [exact H|]. apply IH.
  change (String c (p +:+ l) = String c (p +:+ l')) in H. by injection H.
Qed.

Lemma spell_not_pact (l : string) : "spell" ++ l ≠ "pact".
Proof. change ("spell" +:+ l) with (String "s" ("pell" +:+ l)). discriminate. Qed.

Lemma elem_of_spellLevels (levels : list (string * string)) (x : string) :
  x ∈ _spellLevels levels ↔
  x = "pact" ∨ ∃ l, l ∈ levels.*1 ∧ l ≠ "0" ∧ x = "spell" ++ l.
Proof.
  unfold _spellLevels. rewrite elem_of_app, list_elem_of_fmap, list_elem_of_singleton.
  split.
  - intros [(l & -> & [? ?]%list_elem_of_filter)| ->]; [right|by left].
    by exists l.
  - intros [->|(l & Hl & Hne & ->)]; [by right|left].
    exists l. split; [done|]. by apply list_elem_of_filter.
Qed.

(** X21.  The spell levels end with ["pact"], never have ["spell0"], and have one
    entry ["spell" ++ l] for each key [l] of [CONFIG.DND5E.spellLevels]
    other than ["0"]. *)
Theorem spellLevels_entries (levels : list (string * string)) :
  list.last (_spellLevels levels) = Some "pact"
  ∧ ("spell0" ∉ _spellLevels levels)
  ∧ (∀ l, l ∈ levels.*1 → l ≠ "0" → "spell" ++ l ∈ _spellLevels levels)
  ∧ length (_spellLevels levels)
    = S (length (filter (λ a, a ≠ "0") levels.*1)).
Proof.
  repeat split.
  - unfold _spellLevels. by rewrite last_snoc.
  - intros [?|(l & _ & Hne & Heq)]%elem_of_spellLevels; [done|].
    change "spell0" with ("spell" ++ "0") in Heq. by apply append_inj in Heq.
  - intros l Hl Hne. apply elem_of_spellLevels. right. by exists l.
  - unfold _spellLevels. rewrite length_app, length_fmap. simpl.
    by rewrite Nat.add_1_r.
Qed.

(** X22.  The spell levels have no duplicates, the keys of the table being
    distinct. *)
Theorem spellLevels_NoDup (levels : list (string * string)) :
  NoDup levels.*1 → NoDup (_spellLevels levels).
Proof.
  intros Hnd. unfold _spellLevels. apply list.NoDup_app. repeat split.
  - apply NoDup_fmap_2; [intros ? ?; apply append_inj|]. by apply list.NoDup_filter.
  - intros x (l & -> & _)%list_elem_of_fmap ?%list_elem_of_singleton.
    by apply (spell_not_pact l).
  - apply list.NoDup_singleton.
Qed.

(** X23.  On an object, [_initialSkillValue] completes, changes no property
    other than [ability], sets [ability] to the one of the skill in
    [CONFIG.DND5E.skills] when that is truthy, and gives the same object
    when it is called again. *)
Theorem initialSkillValue_object (skills : obj) (key : string) (o : obj) :
  ∃ o',
    _initialSkillValue skills key (VObj o) = Some (VObj o')
    ∧ (∀ k, k ≠ "ability" → o' !! k = o !! k)
    ∧ (let ability := getFieldOpt (read skills key) "ability" in
       o' !! "ability" = if ToBoolean ability then Some ability else o !! "ability")
    ∧ _initialSkillValue skills key (VObj o') = Some (VObj o').
Proof.
  unfold _initialSkillValue.
  destruct (ToBoolean (getFieldOpt (read skills key) "ability")) eqn:Hb.
  - destruct (read skills key) as [| |?|?|?|sk] eqn:Hsk; try done. simpl.
    eexists. split; [done|]. split; [|split].
    + intros k Hk. by rewrite lookup_insert_ne.
    + by rewrite lookup_insert_eq.
    + by rewrite insert_insert_eq.
  - by exists o.
Qed.

(** X24.  [_initialSkillValue] returns [initial] as it is for a skill that the
    table does not have, and throws exactly when there is an ability to
    set and [initial] is not an object. *)
Theorem initialSkillValue_edges (skills : obj) (key : string) (initial : value) :
  (skills !! key = None → _initialSkillValue skills key initial = Some initial)
  ∧ (_initialSkillValue skills key initial = None ↔
       ToBoolean (getFieldOpt (read skills key) "ability") = true
       ∧ ∀ o, initial ≠ VObj o).
Proof.
  unfold _initialSkillValue. split.
  - intros Hk. by rewrite (read_None _ _ Hk).
  - destruct (ToBoolean (getFieldOpt (read skills key) "ability")) eqn:Hb.
    + destruct (read skills key) as [| |?|?|?|sk] eqn:Hsk; try done. simpl.
      destruct initial; simpl; naive_solver.
    + naive_solver.
Qed.

End initial_values_facts.

(** ** The sample engine and documents *)

Module IntEngineFacts.
Import IntEngine.

Lemma all_digits_app a c b :
  JSString.is_digit c = false → all_digits (a ++ String c b) = false.
Proof.
  intros Hc. unfold all_digits. induction a as [|d a IH]; simpl.
  - by rewrite Hc.
  - rewrite IH. apply andb_false_r.
Qed.

Lemma numeric_no_slash_holds : numeric_no_slash.
Proof.
  intros a b. simpl. unfold parse.
  destruct (trim_keeps "/" a b) as (a' & b' & ->); [done|].
  by rewrite all_digits_app.
Qed.

Lemma print_zero z : print (Int z) = "0" → z = 0%Z.
Proof.
  unfold print. intros H. rewrite <- (DecimalZ.of_to z).
  destruct (Z.to_int z) as [d|d]; [|done]. simpl in H.
  destruct d; try done;
    match goal with
    | |- context [Decimal.Pos ?d] =>
        assert (d ≠ Decimal.Nil) as Hd by done;
        pose proof (NilZero.usu d Hd) as Hu; rewrite H in Hu;
        by injection Hu as <-
    end.
Qed.

Lemma toString_zero_holds : toString_zero.
Proof.
  intros [|z] H; [done|]. apply print_zero in H. by subst.
Qed.

End IntEngineFacts.

Import IntEngine IntEngineFacts Examples.

Example item_migrates : ActivatedEffectTemplate.migrateData item = Some item_migrated.
Proof. reflexivity. Qed.

Lemma migrations_idempotent_witness :
  ActivatedEffectTemplate.migrateData item_migrated = Some item_migrated.
Proof.
  apply (proj1 (migrations_idempotent item item_migrated toString_zero_holds)).
  reflexivity.
Defined.

Lemma formula_fields_canonical_witness :
  getFieldOpt (read item_migrated "uses") "max" = VStr ""
  ∧ getFieldOpt (read item_migrated "duration") "value" = VStr "10".
Proof.
  split.
  - apply (formula_fields_canonical item item_migrated "uses" "max").
    + reflexivity.
    + left. split; reflexivity.
    + right. right. exists (Int 0). split; reflexivity.
  - apply (formula_fields_canonical item item_migrated "duration" "value") with (n := Int 10).
    + reflexivity.
    + right. split; reflexivity.
    + reflexivity.
    + reflexivity.
Defined.

Lemma ranges_split_witness :
  getFieldOpt (read item_migrated "range") "value" = VNum (Int 100)
  ∧ getFieldOpt (read item_migrated "range") "long" = VNum (Int 400).
Proof.
  destruct (ranges_split item item_migrated numeric_no_slash_holds eq_refl) as [H _].
  apply (H "100" "400"); reflexivity.
Defined.

Lemma uses_consume_coerced_witness :
  getFieldOpt (read item_migrated "uses") "value" = VNum (Int 3)
  ∧ getFieldOpt (read item_migrated "consume") "amount" = VNull.
Proof.
  destruct (uses_consume_coerced item item_migrated eq_refl) as [Hu Hc]. split.
  - apply (proj1 (proj2 (Hu eq_refl)) "3"); reflexivity.
  - apply (proj1 (proj2 (Hc eq_refl))). reflexivity.
Defined.

Lemma migrateData_frame_witness :
  item_migrated !! "activation" = item !! "activation".
Proof.
  apply (migrateData_frame item item_migrated "activation").
  - reflexivity.
  - rewrite !not_elem_of_cons. repeat split; try discriminate. apply not_elem_of_nil.
Defined.

Lemma senses_untouched_witness :
  CreatureTemplate.migrateSensesData creature_current = Some creature_current.
Proof. apply senses_untouched. intros original. discriminate. Defined.

Lemma senses_string_kept_witness :
  getFieldOpt (read creature_migrated "traits") "senses"
  = VStr "Darkvision 60 ft, Blindsight 30 ft.".
Proof.
  apply (senses_string_kept creature creature_migrated); reflexivity.
Defined.


Lemma senses_terms_set_witness :
  ∃ source', CreatureTemplate.migrateSensesData creature = Some source'
    ∧ CreatureTemplate.sense source' "darkvision" = VNum (Int 60)
    ∧ CreatureTemplate.sense source' "blindsight" = VNum (Int 30).
Proof.
  destruct (senses_terms_set creature "Darkvision 60 ft, Blindsight 30 ft." ∅ ∅
              eq_refl eq_refl) as (source' & Hrun & Hterms).
  exists source'. split; [exact Hrun|]. split.
  - apply (Hterms [] "Darkvision 60 ft" [" Blindsight 30 ft."] "Darkvision" "60"
             eq_refl eq_refl eq_refl).
    intros t' name' digits' Ht%list_elem_of_singleton Hm _. subst t'.
    injection Hm as <- <-. discriminate.
  - apply (Hterms ["Darkvision 60 ft"] " Blindsight 30 ft." [] "Blindsight" "30"
             eq_refl eq_refl eq_refl).
    intros t' name' digits' Ht. by apply elem_of_nil in Ht.
Defined.


(** ** The further properties on the sample documents *)

Example item_formulas_migrates :
  ActivatedEffectTemplate.migrateData item_formulas = Some item_formulas_migrated.
Proof. reflexivity. Qed.

Example creature_truesight_migrates :
  CreatureTemplate.migrateSensesData creature_truesight
  = Some creature_truesight_migrated.
Proof. reflexivity. Qed.

Lemma targets_coerced_witness :
  getFieldOpt (read item_migrated "target") "value" = VNull
  ∧ getFieldOpt (read item_migrated "target") "units" = VStr "".
Proof.
  destruct (targets_coerced item item_migrated eq_refl) as (Hv & _ & Hk & _).
  split.
  - apply Hv. reflexivity.
  - apply (Hk "units"); [by left|reflexivity].
Defined.

Lemma uses_consume_kept_witness :
  getFieldOpt (read item_formulas_migrated "uses") "value" = VStr "1d4"
  ∧ getFieldOpt (read item_formulas_migrated "consume") "target" = VStr "arrows".
Proof.
  destruct (uses_consume_kept item_formulas item_formulas_migrated eq_refl)
    as (Hv & _ & _ & _ & Hc).
  split.
  - apply (proj1 (Hv "uses" "value" (or_introl (conj eq_refl eq_refl))) "1d4");
      [reflexivity|discriminate|reflexivity].
  - apply (Hc "target").
    rewrite !not_elem_of_cons. repeat split; try discriminate. apply not_elem_of_nil.
Defined.

Lemma formula_fields_kept_witness :
  getFieldOpt (read item_formulas_migrated "uses") "max" = VStr "@abilities.wis.mod"
  ∧ getFieldOpt (read item_formulas_migrated "duration") "units" = VStr "hour".
Proof.
  destruct (formula_fields_kept item_formulas item_formulas_migrated eq_refl)
    as (Hf & Hd).
  split.
  - apply (Hf "uses" "max"); [by left|discriminate..].
  - apply (Hd "units"). discriminate.
Defined.

Lemma migrateData_keeps_shape_witness :
  dom item_migrated = dom item
  ∧ ∃ o', item_migrated !! "range" = Some (VObj o').
Proof.
  destruct (migrateData_keeps_shape item item_migrated eq_refl) as (Hdom & _ & Hobj).
  split; [exact Hdom|]. eapply (Hobj "range"). reflexivity.
Defined.

Lemma range_long_coerced_witness :
  getFieldOpt (read item_formulas_migrated "range") "long" = VNum (Int 120).
Proof.
  destruct (range_long_coerced item_formulas item_formulas_migrated eq_refl)
    as (_ & Hl & _).
  - intros v Hv. discriminate Hv.
  - apply (Hl "120"); reflexivity.
Defined.

Lemma range_kept_witness :
  getFieldOpt (read item_formulas_migrated "range") "units" = VStr "ft"
  ∧ getFieldOpt (read item_formulas_migrated "range") "value" = VNum (Int 30).
Proof.
  destruct (range_kept item_formulas item_formulas_migrated eq_refl) as (Hu & Hv & _).
  split.
  - apply Hu. discriminate.
  - apply Hv. discriminate.
Defined.

Lemma range_single_number_witness :
  ∃ source', ActivatedEffectTemplate.migrateData (item_range "60") = Some source'
    ∧ getFieldOpt (read source' "range") "value" = VNum (Int 60)
    ∧ getFieldOpt (read source' "range") "long" = VNum (Int 5).
Proof.
  eexists. split; [reflexivity|].
  destruct (range_single_number (item_range "60") _ "60" numeric_no_slash_holds
              eq_refl eq_refl eq_refl) as (Hv & Hl).
  split; [exact Hv|]. apply Hl. discriminate.
Defined.

Lemma range_extra_parts_witness :
  ∃ source', ActivatedEffectTemplate.migrateData (item_range "10/20/30") = Some source'
    ∧ getFieldOpt (read source' "range") "value" = VNum (Int 10)
    ∧ getFieldOpt (read source' "range") "long" = VNum (Int 20).
Proof.
  eexists. split; [reflexivity|].
  exact (range_extra_parts (item_range "10/20/30") _ "10" "20" "30"
           numeric_no_slash_holds eq_refl eq_refl eq_refl eq_refl).
Defined.

Lemma touch_free_of_slash : JSString.free_of "/" "touch".
Proof.
  intros a b H.
  do 5 (destruct a as [|? a]; [discriminate H|injection H as _ H]).
  destruct a; discriminate H.
Qed.

Lemma range_first_part_kept_witness :
  ∃ source', ActivatedEffectTemplate.migrateData (item_range "touch/30") = Some source'
    ∧ getFieldOpt (read source' "range") "value" = VStr "touch/30"
    ∧ getFieldOpt (read source' "range") "long" = VNum (Int 30).
Proof.
  eexists. split; [reflexivity|].
  exact (range_first_part_kept (item_range "touch/30") _ "touch" "30"
           numeric_no_slash_holds eq_refl eq_refl touch_free_of_slash eq_refl eq_refl).
Defined.

Lemma migrateData_canonical_witness :
  getFieldOpt (read item_migrated "target") "value" ≠ VStr ""
  ∧ getFieldOpt (read item_migrated "uses") "recovery" ≠ VUndefined.
Proof.
  destruct (migrateData_canonical item item_migrated eq_refl) as (Hb & _ & _ & Hr).
  split.
  - apply (Hb ("target", "value")). by left.
  - apply Hr. reflexivity.
Defined.

Lemma migrateData_current_untouched_witness :
  ActivatedEffectTemplate.migrateData item_migrated = Some item_migrated.
Proof.
  apply migrateData_current_untouched.
  - by eexists.
  - intros p Hp.
    repeat (apply elem_of_cons in Hp as [->|Hp]); try discriminate.
    by apply elem_of_nil in Hp.
  - intros p s Hp.
    repeat (apply elem_of_cons in Hp as [->|Hp]); try discriminate.
    by apply elem_of_nil in Hp.
  - intros p Hp.
    repeat (apply elem_of_cons in Hp as [->|Hp]); try discriminate.
    by apply elem_of_nil in Hp.
  - intros p Hp.
    repeat (apply elem_of_cons in Hp as [->|Hp]);
      try (split; [|intros n]; discriminate).
    by apply elem_of_nil in Hp.
  - intros v Hv. discriminate Hv.
  - intros _. discriminate.
Defined.




Lemma senses_empty_string_witness :
  CreatureTemplate.migrateSensesData creature_blank = Some creature_blank.
Proof.
  assert (∃ s', CreatureTemplate.migrateSensesData creature_blank = Some s')
    as [s' Hrun] by by eexists.
  rewrite Hrun. f_equal.
  apply (senses_empty_string creature_blank s' eq_refl Hrun). by eexists.
Defined.

Lemma senses_matched_no_special_witness :
  CreatureTemplate.sense creature_truesight_migrated "special" = VStr "smells fear".
Proof.
  rewrite (senses_matched_no_special creature_truesight creature_truesight_migrated
             "Darkvision 60 ft" eq_refl creature_truesight_migrates);
    [reflexivity| |reflexivity].
  exists "Darkvision 60 ft", "Darkvision", "60". split; [by left|]. by split.
Defined.

Lemma senses_unnamed_kept_witness :
  CreatureTemplate.sense creature_truesight_migrated "truesight" = VNum (Int 10).
Proof.
  rewrite (senses_unnamed_kept creature_truesight creature_truesight_migrated
             "Darkvision 60 ft" "truesight" eq_refl creature_truesight_migrates);
    [reflexivity|discriminate|].
  intros t name digits Ht%list_elem_of_singleton Hm. subst t.
  injection Hm as <- <-. discriminate.
Defined.

Lemma spellLevels_NoDup_witness :
  NoDup (CreatureTemplate._spellLevels spellLevels).
Proof.
  apply spellLevels_NoDup. apply (bool_decide_unpack _). reflexivity.
Defined.
